(** * InstantlyClient.request: the retrying HTTP executor of src/index.ts

    A shallow embedding of [InstantlyClient.request] (src/index.ts, lines
    45-119) together with the pieces of the JavaScript platform it relies
    on: numbers as produced by [parseInt], truthiness, optional chaining,
    string coercion, and the observable effects of one call (HTTP attempts
    handed to axios, console output, timers).

    Modelling conventions.
    - A JavaScript number is [NaN] or an integer [Num z].  Every number the
      function computes with comes from [parseInt] or from counting, so it is
      integer valued; arithmetic is exact, i.e. the model coincides with
      IEEE doubles as long as magnitudes stay below 2^53.
    - A JavaScript string is a sequence of UTF-16 code units. A [string]
      here is its UTF-8 form, byte by byte, which is how a literal of this
      file is read: a code point is one to four bytes, and a surrogate code
      unit may be written by itself, as the three bytes [ED A0..BF 80..BF]
      of its own value. A surrogate without partner can only be written
      so; a pair is the four bytes of its code point or its two surrogates
      one after the other, so that joining two strings is joining their
      forms. A byte sequence that is no such form stands for no JavaScript
      string.
    - The transport (axios and the remote server) is an oracle
      [nat -> Outcome]: the outcome of the n-th HTTP call of the invocation,
      counted from 0.
    - The effects of an invocation are a chronological list of [Event]s;
      [await new Promise(r => setTimeout(r, d))] is the event [EvSleep d].
    - [request] is async: [Returned v] is a fulfilled promise, [Thrown e] a
      rejected one. *)

From Stdlib Require Import ZArith List String Ascii Bool Lia DecimalString.
Import ListNotations.
Open Scope string_scope.
Open Scope Z_scope.

(** ** JavaScript numbers *)

Module Js.

Inductive num : Type :=
| NaN
| Num (z : Z).

(** [a < b] *)
Definition lt (a b : num) : bool :=
  match a, b with
  | Num x, Num y => x <? y
  | _, _ => false
  end.

(** [a * b]. The product is exact: it is the double the code computes
    whenever it is a safe integer (magnitude at most 2^53 - 1). *)
Definition mul (a b : num) : num :=
  match a, b with
  | Num x, Num y => Num (x * y)
  | _, _ => NaN
  end.

(** [Math.pow(b, e)] for an integer exponent [e >= 0]; [Math.pow(x, 0)] is 1
    for every [x], [NaN] included. The power is exact: it is the double the
    code computes whenever it is a safe integer. *)
Definition pow (b : num) (e : Z) : num :=
  if e =? 0 then Num 1
  else match b with
       | NaN => NaN
       | Num x => Num (x ^ e)
       end.

(** [Math.min(a, b)] *)
Definition min (a b : num) : num :=
  match a, b with
  | Num x, Num y => Num (Z.min x y)
  | _, _ => NaN
  end.

Definition Z_to_string (z : Z) : string := NilZero.string_of_int (Z.to_int z).

(** String coercion of a number, as in a template literal: the decimal
    digits, which is what the code prints for an integer below 10^21. *)
Definition num_to_string (n : num) : string :=
  match n with
  | NaN => "NaN"
  | Num z => Z_to_string z
  end.

(** *** parseInt(s) with no radix argument (ECMA-262, 19.2.5) *)

(** White space and line terminators (ECMA-262, 12.2 and 12.3) are
    skipped by [parseInt]. Those of one byte: TAB, LF, VT, FF, CR, SP. *)
Definition is_white_space (c : ascii) : bool :=
  let n := nat_of_ascii c in
  ((9 <=? n) && (n <=? 13))%nat || (n =? 32)%nat.

(** Of two bytes: U+00A0 (NBSP), [C2 A0]. *)
Definition is_white_space2 (c1 c2 : ascii) : bool :=
  ((nat_of_ascii c1 =? 194) && (nat_of_ascii c2 =? 160))%nat.

(** Of three bytes: U+1680 [E1 9A 80]; U+2000 to U+200A [E2 80 80..8A];
    U+2028 and U+2029 [E2 80 A8], [E2 80 A9]; U+202F [E2 80 AF];
    U+205F [E2 81 9F]; U+3000 [E3 80 80]; U+FEFF [EF BB BF]. *)
Definition is_white_space3 (c1 c2 c3 : ascii) : bool :=
  let n1 := nat_of_ascii c1 in
  let n2 := nat_of_ascii c2 in
  let n3 := nat_of_ascii c3 in
  ((n1 =? 225) && (n2 =? 154) && (n3 =? 128)
   || (n1 =? 226) && (n2 =? 128)
      && (((128 <=? n3) && (n3 <=? 138)) || (n3 =? 168) || (n3 =? 169)
          || (n3 =? 175))
   || (n1 =? 226) && (n2 =? 129) && (n3 =? 159)
   || (n1 =? 227) && (n2 =? 128) && (n3 =? 128)
   || (n1 =? 239) && (n2 =? 187) && (n3 =? 191))%nat.

Fixpoint trim_start (s : string) : string :=
  match s with
  | String c1 s1 =>
      if is_white_space c1 then trim_start s1
      else
        match s1 with
        | String c2 s2 =>
            if is_white_space2 c1 c2 then trim_start s2
            else
              match s2 with
              | String c3 s3 =>
                  if is_white_space3 c1 c2 c3 then trim_start s3 else s
              | EmptyString => s
              end
        | EmptyString => s
        end
  | EmptyString => s
  end.

(** Value of a digit in the given radix, if it is one. *)
Definition digit_value (radix : Z) (c : ascii) : option Z :=
  let n := Z.of_nat (nat_of_ascii c) in
  let v :=
    if (48 <=? n) && (n <=? 57) then Some (n - 48)
    else if (97 <=? n) && (n <=? 122) then Some (n - 87)
    else if (65 <=? n) && (n <=? 90) then Some (n - 55)
    else None in
  match v with
  | Some d => if d <? radix then Some d else None
  | None => None
  end.

(** Reads the longest prefix of digits; [acc] is [None] until a digit has
    been read. *)
Fixpoint parse_digits (radix : Z) (acc : option Z) (s : string) : option Z :=
  match s with
  | EmptyString => acc
  | String c s' =>
      match digit_value radix c with
      | Some d =>
          parse_digits radix
            (Some (match acc with Some a => a * radix + d | None => d end)) s'
      | None => acc
      end
  end.

Definition strip_sign (s : string) : Z * string :=
  match s with
  | String "-" s' => (-1, s')
  | String "+" s' => (1, s')
  | _ => (1, s)
  end.

Definition strip_hex_prefix (s : string) : Z * string :=
  match s with
  | String "0" (String "x" s') => (16, s')
  | String "0" (String "X" s') => (16, s')
  | _ => (10, s)
  end.

Definition parseInt (s : string) : num :=
  let '(sign, s1) := strip_sign (trim_start s) in
  let '(radix, s2) := strip_hex_prefix s1 in
  match parse_digits radix None s2 with
  | Some n => Num (sign * n)
  | None => NaN
  end.

(** *** Values *)

#[local] Set Warnings "-register-all".

Inductive val : Type :=
| Undefined
| Null
| Bool (b : bool)
| Number (n : num)
| Str (s : string)
| Array (elems : list val)
| Object (fields : list (string * val)).
(* [Object fields]: the own properties of a plain object, as [JSON.parse]
   builds it, each key listed once. *)

(** ToBoolean *)
Definition truthy (v : val) : bool :=
  match v with
  | Undefined | Null => false
  | Bool b => b
  | Number NaN => false
  | Number (Num z) => negb (z =? 0)
  | Str s => negb (String.eqb s "")
  | Array _ | Object _ => true
  end.

(** [a || b] *)
Definition or (a b : val) : val := if truthy a then a else b.

Fixpoint lookup (k : string) (fields : list (string * val)) : val :=
  match fields with
  | [] => Undefined
  | (k', v) :: rest => if String.eqb k k' then v else lookup k rest
  end.

(** [v?.k] for a key that no prototype defines (such as [error] and
    [message]): only a plain object can carry it. *)
Definition opt_prop (v : val) (k : string) : val :=
  match v with
  | Object fields => lookup k fields
  | _ => Undefined
  end.

Fixpoint join (sep : string) (parts : list string) : string :=
  match parts with
  | [] => ""
  | [p] => p
  | p :: rest => p ++ sep ++ join sep rest
  end.

Fixpoint has_key (k : string) (fields : list (string * val)) : bool :=
  match fields with
  | [] => false
  | (k', _) :: rest => String.eqb k k' || has_key k rest
  end.

(** ToString, as applied by a template literal; [None] when it throws the
    [TypeError] "Cannot convert object to primitive value". A plain object
    is converted by the inherited [Object.prototype.toString] unless it has
    an own [toString] property: that one is never callable in parsed JSON,
    and [valueOf] then gives back the object, so that the conversion fails.
    An array is converted by [join], which converts its elements in turn. *)
Fixpoint to_string (v : val) : option string :=
  match v with
  | Undefined => Some "undefined"
  | Null => Some "null"
  | Bool true => Some "true"
  | Bool false => Some "false"
  | Number n => Some (num_to_string n)
  | Str s => Some s
  | Array elems =>
      option_map (join ",")
        ((fix each (l : list val) : option (list string) :=
            match l with
            | [] => Some []
            | e :: l' =>
                match match e with
                      | Undefined | Null => Some ""
                      | _ => to_string e
                      end, each l' with
                | Some s, Some rest => Some (s :: rest)
                | _, _ => None
                end
            end) elems)
  | Object fields =>
      if has_key "toString" fields then None else Some "[object Object]"
  end.

(** Thrown values. [TypeError] is what reading a property of [undefined]
    raises, and a failed string conversion; [URIError] is what
    [encodeURIComponent] raises. *)
Inductive error : Type :=
| Error (message : string)
| TypeError (message : string)
| URIError (message : string).

End Js.

(** ** The data of one invocation *)

(** [retryConfig] (lines 28-33): four results of [parseInt]. *)
Record RetryConfig : Type := {
  maxAttempts : Js.num;
  initialDelay : Js.num;
  maxDelay : Js.num;
  backoffFactor : Js.num
}.

(** The fields of [InstantlyClient] (lines 37-43). *)
Record InstantlyClient : Type := {
  apiKey : string;
  baseUrl : string
}.

(** The argument handed to [axios(...)] (lines 57-63). *)
Record AxiosRequest : Type := {
  req_method : string;
  req_url : string;
  req_headers : list (string * string);
  req_data : Js.val;
  req_params : Js.val
}.

(** What the function reads of an axios response. *)
Record AxiosResponse : Type := {
  status : Z;
  statusText : string;
  headers : list (string * string);
  data : Js.val
}.

(** What the function reads of a rejection: [error.message] and the
    optional [error.response]. *)
Record AxiosError : Type := {
  message : string;
  response : option AxiosResponse
}.

(** axios fulfils on a 2xx status and rejects otherwise, with a response
    when the server answered and without one when it did not. *)
Inductive Outcome : Type :=
| Resolved (r : AxiosResponse)
| Rejected (e : AxiosError).

(** The object [errorDetails] (lines 70-79); an absent [response] leaves
    [status], [statusText] and [responseData] undefined. *)
Record ErrorDetails : Type := {
  ed_endpoint : string;
  ed_method : string;
  ed_url : string;
  ed_attempt : nat;
  ed_status : option Z;
  ed_statusText : option string;
  ed_responseData : Js.val;
  ed_message : string
}.

(** Observable effects, in the order they happen. [EvConsoleError d] is
    [console.error('Instantly API Error:', JSON.stringify(d, null, 2))]. *)
Inductive Event : Type :=
| EvHttp (r : AxiosRequest)
| EvConsoleError (d : ErrorDetails)
| EvConsoleLog (text : string)
| EvSleep (ms : Js.num).

Inductive Result : Type :=
| Returned (v : Js.val)
| Thrown (e : Js.error).

(** How the [catch] block leaves: by [throw], by [break], or by reaching
    the loop test again ([continue], or the end of the block). *)
Inductive Control : Type :=
| CThrow (e : Js.error)
| CBreak
| CLoop.

(** ** Observing a trace *)

Definition is_http (ev : Event) : bool :=
  match ev with
  | EvHttp _ => true
  | _ => false
  end.

(** Number of HTTP attempts made. *)
Fixpoint http_count (tr : list Event) : nat :=
  match tr with
  | [] => 0
  | EvHttp _ :: tr' => S (http_count tr')
  | _ :: tr' => http_count tr'
  end.

(** The timer delays, in order. *)
Fixpoint sleeps (tr : list Event) : list Js.num :=
  match tr with
  | [] => []
  | EvSleep d :: tr' => d :: sleeps tr'
  | _ :: tr' => sleeps tr'
  end.

(** What happens after the last HTTP attempt (the whole trace when there is
    none). *)
Fixpoint after_last_http (tr : list Event) : list Event :=
  match tr with
  | [] => []
  | ev :: tr' =>
      if existsb is_http tr' then after_last_http tr'
      else if is_http ev then tr' else ev :: tr'
  end.

(** What follows the [i]-th HTTP attempt (counted from 0), if it was made. *)
Fixpoint after_http (i : nat) (tr : list Event) : option (list Event) :=
  match tr with
  | [] => None
  | EvHttp _ :: tr' =>
      match i with
      | O => Some tr'
      | S i' => after_http i' tr'
      end
  | _ :: tr' => after_http i tr'
  end.

Fixpoint until_http (tr : list Event) : list Event :=
  match tr with
  | [] => []
  | EvHttp _ :: _ => []
  | ev :: tr' => ev :: until_http tr'
  end.

(** The events between the [i]-th HTTP attempt and the next one (or the end
    of the invocation). *)
Definition attempt_events (tr : list Event) (i : nat) : option (list Event) :=
  option_map until_http (after_http i tr).

(** The attempt numbers written by [console.error], in order. *)
Fixpoint logged_attempts (tr : list Event) : list nat :=
  match tr with
  | [] => []
  | EvConsoleError d :: tr' => ed_attempt d :: logged_attempts tr'
  | _ :: tr' => logged_attempts tr'
  end.





(** Whether [needle] occurs in [s]. *)
Fixpoint contains (needle s : string) : bool :=
  if String.prefix needle s then true
  else match s with
       | EmptyString => false
       | String _ s' => contains needle s'
       end.

(** ** Console output *)

Section Console.

(** [d => JSON.stringify(d, null, 2)], a function of the platform. *)
Variable stringify : ErrorDetails -> string.

(** The text an event writes to the console, if any; [console.error]
    separates its two arguments with a space. *)
Definition console_line (ev : Event) : option string :=
  match ev with
  | EvConsoleError d => Some ("Instantly API Error: " ++ stringify d)
  | EvConsoleLog text => Some text
  | EvHttp _ | EvSleep _ => None
  end.

Fixpoint console_output (tr : list Event) : list string :=
  match tr with
  | [] => []
  | ev :: tr' =>
      match console_line ev with
      | Some line => line :: console_output tr'
      | None => console_output tr'
      end
  end.

End Console.

(** ** Sample policies and transports, for the examples *)

(** The defaults of lines 29-32. *)
Definition default_policy : RetryConfig :=
  {| maxAttempts := Js.Num 3;
     initialDelay := Js.Num 1000;
     maxDelay := Js.Num 10000;
     backoffFactor := Js.Num 2 |}.

Definition quick_policy : RetryConfig :=
  {| maxAttempts := Js.Num 3;
     initialDelay := Js.Num 100;
     maxDelay := Js.Num 1000;
     backoffFactor := Js.Num 2 |}.


(** [INSTANTLY_RETRY_MAX_ATTEMPTS=0] *)
Definition no_attempt_policy : RetryConfig :=
  {| maxAttempts := Js.Num 0;
     initialDelay := Js.Num 1000;
     maxDelay := Js.Num 10000;
     backoffFactor := Js.Num 2 |}.

Definition sample_client : InstantlyClient :=
  {| apiKey := "key-1"; baseUrl := "https://api.instantly.ai/api/v2" |}.

(** A rejection that carries the server's answer. *)
Definition answered (code : Z) (hdrs : list (string * string)) (body : Js.val)
  : Outcome :=
  Rejected {| message := "Request failed with status code " ++ Js.Z_to_string code;
              response := Some {| status := code; statusText := "";
                                  headers := hdrs; data := body |} |}.

(** A rejection without a response. *)
Definition network_failure : Outcome :=
  Rejected {| message := "connect ECONNREFUSED"; response := None |}.

Definition ok (body : Js.val) : Outcome :=
  Resolved {| status := 200; statusText := "OK"; headers := []; data := body |}.

(** The transport that answers the first calls as listed and every later
    one with [rest]. *)
Definition scripted (outcomes : list Outcome) (rest : Outcome) : nat -> Outcome :=
  fun n => nth n outcomes rest.

(** ** InstantlyClient.request *)

Section Request.

(** The module-level constant [retryConfig], the remote side, and the
    receiver and arguments of the call. *)
Variable retryConfig : RetryConfig.
Variable transport : nat -> Outcome.
Variable this : InstantlyClient.
Variable endpoint : string.
Variable method : string.
Variable data_arg : Js.val.

(** Lines 46-50. *)
Definition url : string := baseUrl this ++ endpoint.

Definition request_headers : list (string * string) :=
  [("Content-Type", "application/json");
   ("Authorization", "Bearer " ++ apiKey this)].

(** Lines 57-63. *)
Definition axios_request : AxiosRequest :=
  {| req_method := method;
     req_url := url;
     req_headers := request_headers;
     req_data := if String.eqb method "GET" then Js.Undefined else data_arg;
     req_params := if String.eqb method "GET" then data_arg else Js.Undefined |}.

(** [error.response?.status === code] *)
Definition status_is (error : AxiosError) (code : Z) : bool :=
  match response error with
  | Some r => status r =? code
  | None => false
  end.

(** [error.response && error.response.status < 500] *)
Definition below_500 (error : AxiosError) : bool :=
  match response error with
  | Some r => status r <? 500
  | None => false
  end.

(** Lines 70-79. *)
Definition errorDetails (attempt : nat) (error : AxiosError) : ErrorDetails :=
  {| ed_endpoint := endpoint;
     ed_method := method;
     ed_url := url;
     ed_attempt := attempt;
     ed_status := option_map status (response error);
     ed_statusText := option_map statusText (response error);
     ed_responseData :=
       match response error with
       | Some r => data r
       | None => Js.Undefined
       end;
     ed_message := message error |}.

Fixpoint header (name : string) (hs : list (string * string)) : option string :=
  match hs with
  | [] => None
  | (k, v) :: rest => if String.eqb name k then Some v else header name rest
  end.

(** Line 92: [parseInt(error.response.headers['retry-after'] || '60') * 1000];
    an absent header and an empty one are both falsy. *)
Definition retryAfter (r : AxiosResponse) : Js.num :=
  let raw :=
    match header "retry-after" (headers r) with
    | Some v => if String.eqb v "" then "60" else v
    | None => "60"
    end in
  Js.mul (Js.parseInt raw) (Js.Num 1000).

(** Lines 106-109. *)
Definition backoff_delay (attempt : nat) : Js.num :=
  Js.min
    (Js.mul (initialDelay retryConfig)
            (Js.pow (backoffFactor retryConfig) (Z.of_nat attempt - 1)))
    (maxDelay retryConfig).

Definition attempts_remain (attempt : nat) : bool :=
  Js.lt (Js.Num (Z.of_nat attempt)) (maxAttempts retryConfig).

(** The two [console.log] lines, 110 and 94. *)
Definition retry_line (attempt : nat) : string :=
  "Retrying in " ++ Js.num_to_string (backoff_delay attempt)
  ++ "ms... (Attempt " ++ Js.Z_to_string (Z.of_nat attempt)
  ++ "/" ++ Js.num_to_string (maxAttempts retryConfig) ++ ")".

Definition rate_limit_line (r : AxiosResponse) : string :=
  "Rate limited. Waiting " ++ Js.num_to_string (retryAfter r)
  ++ "ms before retry...".

(** The [catch] block, lines 65-113, entered with [attempt] already
    incremented: the events it emits and how it leaves. *)
Definition catch_block (attempt : nat) (error : AxiosError)
  : list Event * Control :=
  let logged := EvConsoleError (errorDetails attempt error) in
  if status_is error 404 then
    ([logged], CThrow (Js.Error ("Endpoint not found: " ++ endpoint)))
  else if status_is error 401 then
    ([logged], CThrow (Js.Error "Invalid API key"))
  else
    let after_rate_limit :=
      (* lines 100-112 *)
      if below_500 error then ([logged], CBreak)
      else if attempts_remain attempt then
        ([logged; EvConsoleLog (retry_line attempt);
          EvSleep (backoff_delay attempt)], CLoop)
      else ([logged], CLoop) in
    match response error with
    | Some r =>
        if status r =? 429 then
          (* lines 91-98 *)
          if attempts_remain attempt then
            ([logged; EvConsoleLog (rate_limit_line r);
              EvSleep (retryAfter r)], CLoop)
          else after_rate_limit
        else after_rate_limit
    | None => after_rate_limit
    end.

(** Lines 116-118, reached when the loop test fails or by [break].
    [lastError] is [None] while the variable is still [undefined]. Line 117
    throws when it is; the template literal of line 118 throws when the
    cause has no string form. *)
Definition apiError (lastError : AxiosError) : Js.val :=
  let body :=
    match response lastError with
    | Some r => data r
    | None => Js.Undefined
    end in
  Js.or (Js.opt_prop body "error")
        (Js.or (Js.opt_prop body "message") (Js.Str (message lastError))).

Definition terminal_error (attempt : nat) (lastError : option AxiosError)
  : Result :=
  match lastError with
  | None =>
      Thrown (Js.TypeError
                "Cannot read properties of undefined (reading 'response')")
  | Some e =>
      match Js.to_string (apiError e) with
      | Some cause =>
          Thrown (Js.Error ("Instantly API error after "
                            ++ Js.Z_to_string (Z.of_nat attempt)
                            ++ " attempts: " ++ cause))
      | None =>
          Thrown (Js.TypeError "Cannot convert object to primitive value")
      end
  end.

Definition emit (evs : list Event) (run : option (Result * list Event))
  : option (Result * list Event) :=
  match run with
  | Some (r, tr) => Some (r, (evs ++ tr)%list)
  | None => None
  end.

(** The [while] loop of lines 55-114 followed by lines 116-118. [attempt]
    and [lastError] are the two local variables; every HTTP call made so
    far has failed and bumped [attempt], so [attempt] is also the index of
    the next call. [fuel] bounds the number of iterations; [None] means it
    ran out. *)
Fixpoint request_loop (fuel : nat) (attempt : nat)
  (lastError : option AxiosError) : option (Result * list Event) :=
  match fuel with
  | O => None
  | S fuel' =>
      if attempts_remain attempt then
        match transport attempt with
        | Resolved r => Some (Returned (data r), [EvHttp axios_request])
        | Rejected error =>
            let attempt' := S attempt in
            let '(evs, ctl) := catch_block attempt' error in
            match ctl with
            | CThrow e => Some (Thrown e, EvHttp axios_request :: evs)
            | CBreak =>
                Some (terminal_error attempt' (Some error),
                      EvHttp axios_request :: evs)
            | CLoop =>
                emit (EvHttp axios_request :: evs)
                     (request_loop fuel' attempt' (Some error))
            end
        end
      else Some (terminal_error attempt lastError, [])
  end.

(** Iterations the loop can need: one per unit of [maxAttempts], plus the
    one whose test fails. *)
Definition iterations : nat :=
  match maxAttempts retryConfig with
  | Js.Num m => S (Z.to_nat m)
  | Js.NaN => 1%nat
  end.

Definition request : option (Result * list Event) :=
  request_loop iterations 0 None.


(** *** The loop as a relation

    [Runs attempt lastError result trace]: entered at the loop test with
    the given values of the two local variables, the function ends with
    [result] after the effects [trace]. One constructor per way through an
    iteration. *)
Inductive Runs : nat -> option AxiosError -> Result -> list Event -> Prop :=
| Runs_exhausted attempt lastError :
    attempts_remain attempt = false ->
    Runs attempt lastError (terminal_error attempt lastError) []
| Runs_resolved attempt lastError r :
    attempts_remain attempt = true ->
    transport attempt = Resolved r ->
    Runs attempt lastError (Returned (data r)) [EvHttp axios_request]
| Runs_throw attempt lastError error evs e :
    attempts_remain attempt = true ->
    transport attempt = Rejected error ->
    catch_block (S attempt) error = (evs, CThrow e) ->
    Runs attempt lastError (Thrown e) (EvHttp axios_request :: evs)
| Runs_break attempt lastError error evs :
    attempts_remain attempt = true ->
    transport attempt = Rejected error ->
    catch_block (S attempt) error = (evs, CBreak) ->
    Runs attempt lastError (terminal_error (S attempt) (Some error))
         (EvHttp axios_request :: evs)
| Runs_loop attempt lastError error evs result tr :
    attempts_remain attempt = true ->
    transport attempt = Rejected error ->
    catch_block (S attempt) error = (evs, CLoop) ->
    Runs (S attempt) (Some error) result tr ->
    Runs attempt lastError result (EvHttp axios_request :: evs ++ tr).

(** The attempts the policy allows, as a natural number. *)
Definition budget : nat :=
  match maxAttempts retryConfig with
  | Js.Num m => Z.to_nat m
  | Js.NaN => 0%nat
  end.

(** *** Classification of a failed attempt *)

(** A network-level failure (no response) or a status of 500 and above. *)
Definition retriable (error : AxiosError) : bool :=
  match response error with
  | Some r => 500 <=? status r
  | None => true
  end.

(** A response that ends the invocation whatever the budget: 404, 401, or
    any other status below 500 except 429. *)
Definition fatal (error : AxiosError) : bool :=
  status_is error 404 || status_is error 401
  || (below_500 error && negb (status_is error 429)).

(** 5xx, network failure or 429. *)
Definition transient (error : AxiosError) : bool :=
  retriable error || status_is error 429.

Ltac catch_cases :=
  unfold fatal, transient, retriable in *;
  unfold catch_block, status_is, below_500 in *;
  repeat match goal with
         | H : response ?e = _ |- _ => rewrite H in *
         | H : attempts_remain ?n = _ |- _ => rewrite H in *
         | H : status ?r = _ |- _ => rewrite H in *
         | |- context [response ?e] => destruct (response e) eqn:?
         end.

Ltac decide_status :=
  repeat match goal with
         | |- context [?a =? ?b] =>
             destruct (Z.eqb_spec a b); try lia
         | |- context [?a <? ?b] =>
             destruct (Z.ltb_spec a b); try lia
         | H : context [?a =? ?b] |- _ =>
             destruct (Z.eqb_spec a b); try lia
         | H : context [?a <? ?b] |- _ =>
             destruct (Z.ltb_spec a b); try lia
         | H : context [?a <=? ?b] |- _ =>
             destruct (Z.leb_spec a b); try lia
         end.

(** What the [i]-th iteration does after its HTTP call, read off the
    transport. *)
Definition iteration_events (i : nat) : list Event :=
  match transport i with
  | Resolved _ => []
  | Rejected error => fst (catch_block (S i) error)
  end.

(** Whether the [i]-th iteration is followed by another HTTP attempt. *)
Definition continues (i : nat) : bool :=
  match transport i with
  | Resolved _ => false
  | Rejected error =>
      match snd (catch_block (S i) error) with
      | CLoop => attempts_remain (S i)
      | _ => false
      end
  end.

(** The result of an invocation whose last HTTP attempt is the [i]-th. *)
Definition final_result (i : nat) : Result :=
  match transport i with
  | Resolved r => Returned (data r)
  | Rejected error =>
      match snd (catch_block (S i) error) with
      | CThrow e => Thrown e
      | _ => terminal_error (S i) (Some error)
      end
  end.

Ltac runs_induction H :=
  induction H as [a lastE Hrem | a lastE r Hrem Hout
                 | a lastE e evs err Hrem Hout Hc
                 | a lastE e evs Hrem Hout Hc
                 | a lastE e evs r tr Hrem Hout Hc Hrun IH].

(** ** Proofs *)

(** *** The loop function and the relation agree *)

Lemma request_loop_runs fuel :
  forall attempt lastError result tr,
    request_loop fuel attempt lastError = Some (result, tr) ->
    Runs attempt lastError result tr.
Proof.
  induction fuel as [|fuel IH]; intros attempt lastError result tr; simpl.
  - discriminate.
  - destruct (attempts_remain attempt) eqn:Hrem.
    + destruct (transport attempt) as [r|error] eqn:Hout.
      * intros [= <- <-]. now apply Runs_resolved.
      * destruct (catch_block (S attempt) error) as [evs ctl] eqn:Hcatch.
        destruct ctl as [e| |].
        -- intros [= <- <-]. eapply Runs_throw; eassumption.
        -- intros [= <- <-]. eapply Runs_break; eassumption.
        -- destruct (request_loop fuel (S attempt) (Some error))
             as [[result' tr']|] eqn:Hrec; simpl; [|discriminate].
           intros [= <- <-]. eapply Runs_loop; eauto.
    + intros [= <- <-]. now apply Runs_exhausted.
Qed.

Lemma attempts_remain_budget attempt :
  attempts_remain attempt = true -> (attempt < budget)%nat.
Proof.
  unfold attempts_remain, budget, Js.lt.
  destruct (maxAttempts retryConfig) as [|m]; [discriminate|].
  intros H%Z.ltb_lt. lia.
Qed.

Lemma iterations_budget : iterations = S budget.
Proof.
  unfold iterations, budget. now destruct (maxAttempts retryConfig).
Qed.

(** With [budget - attempt + 1] iterations of fuel the loop finishes. *)
Lemma request_loop_total fuel :
  forall attempt lastError,
    (attempt <= budget < fuel + attempt)%nat ->
    exists result tr, request_loop fuel attempt lastError = Some (result, tr).
Proof.
  induction fuel as [|fuel IH]; intros attempt lastError Hfuel; simpl.
  - lia.
  - destruct (attempts_remain attempt) eqn:Hrem; [|eauto].
    apply attempts_remain_budget in Hrem.
    destruct (transport attempt) as [r|error]; [eauto|].
    destruct (catch_block (S attempt) error) as [evs [e| |]]; eauto.
    destruct (IH (S attempt) (Some error)) as (result & tr & ->); [lia|].
    simpl. eauto.
Qed.

Lemma request_total : exists result tr, request = Some (result, tr).
Proof.
  apply request_loop_total. rewrite iterations_budget. lia.
Qed.

Lemma request_runs result tr :
  request = Some (result, tr) -> Runs 0 None result tr.
Proof. apply request_loop_runs. Qed.

(** The function always ends, and the way it ends is a run of the loop
    from [attempt = 0] with [lastError] undefined. *)
Lemma request_ends :
  exists result tr, request = Some (result, tr) /\ Runs 0 None result tr.
Proof.
  destruct request_total as (result & tr & H).
  exists result, tr. split; [exact H | now apply request_runs].
Qed.

Lemma catch_retriable attempt error :
  retriable error = true ->
  attempts_remain attempt = true ->
  catch_block attempt error =
    ([EvConsoleError (errorDetails attempt error);
      EvConsoleLog (retry_line attempt);
      EvSleep (backoff_delay attempt)], CLoop).
Proof.
  intros Hret Hrem. catch_cases; decide_status; simpl in *;
    try reflexivity; try discriminate.
Qed.

Lemma catch_retriable_last attempt error :
  retriable error = true ->
  attempts_remain attempt = false ->
  catch_block attempt error =
    ([EvConsoleError (errorDetails attempt error)], CLoop).
Proof.
  intros Hret Hrem. catch_cases; decide_status; simpl in *;
    try reflexivity; try discriminate.
Qed.

Lemma catch_rate_limited attempt error r :
  response error = Some r ->
  status r = 429 ->
  attempts_remain attempt = true ->
  catch_block attempt error =
    ([EvConsoleError (errorDetails attempt error);
      EvConsoleLog (rate_limit_line r);
      EvSleep (retryAfter r)], CLoop).
Proof.
  intros Hresp Hst Hrem. catch_cases. reflexivity.
Qed.

Lemma catch_rate_limited_last attempt error r :
  response error = Some r ->
  status r = 429 ->
  attempts_remain attempt = false ->
  catch_block attempt error =
    ([EvConsoleError (errorDetails attempt error)], CBreak).
Proof.
  intros Hresp Hst Hrem. catch_cases. reflexivity.
Qed.

Lemma catch_not_found attempt error :
  status_is error 404 = true ->
  catch_block attempt error =
    ([EvConsoleError (errorDetails attempt error)],
     CThrow (Js.Error ("Endpoint not found: " ++ endpoint))).
Proof.
  intros H. unfold catch_block. now rewrite H.
Qed.

Lemma catch_unauthorized attempt error :
  status_is error 401 = true ->
  catch_block attempt error =
    ([EvConsoleError (errorDetails attempt error)],
     CThrow (Js.Error "Invalid API key")).
Proof.
  intros H. unfold catch_block. rewrite H.
  destruct (status_is error 404) eqn:H404; [|reflexivity].
  unfold status_is in *. destruct (response error); [|discriminate].
  apply Z.eqb_eq in H, H404. lia.
Qed.

Lemma catch_other_below_500 attempt error r :
  response error = Some r ->
  status r < 500 ->
  status r <> 404 -> status r <> 401 -> status r <> 429 ->
  catch_block attempt error =
    ([EvConsoleError (errorDetails attempt error)], CBreak).
Proof.
  intros Hresp Hlt H404 H401 H429. catch_cases; decide_status; reflexivity.
Qed.

(** A fatal failure leaves the loop at once, having logged the failure and
    nothing else. *)
Lemma catch_fatal attempt error evs ctl :
  fatal error = true ->
  catch_block attempt error = (evs, ctl) ->
  evs = [EvConsoleError (errorDetails attempt error)] /\ ctl <> CLoop.
Proof.
  intros Hfat. catch_cases; [|discriminate].
  decide_status; cbn [orb andb negb] in Hfat; try discriminate;
    intros [= <- <-]; (split; [reflexivity | discriminate]).
Qed.

(** Whatever the failure, the block makes no HTTP call, and it sleeps only
    on its way back to the loop test, with attempts remaining. *)
Lemma catch_shape attempt error evs ctl :
  catch_block attempt error = (evs, ctl) ->
  existsb is_http evs = false /\
  (sleeps evs = [] \/
   ctl = CLoop /\ attempts_remain attempt = true /\
   exists line d, evs = [EvConsoleError (errorDetails attempt error);
                         EvConsoleLog line; EvSleep d]).
Proof.
  destruct (attempts_remain attempt) eqn:Hrem;
    catch_cases; decide_status; simpl;
    intros [= <- <-]; simpl; (split; [reflexivity|]); eauto 8.
Qed.

(** *** Traces of one iteration followed by the rest of the loop *)

Lemma http_count_quiet evs :
  existsb is_http evs = false -> http_count evs = 0%nat.
Proof.
  induction evs as [|[] evs IH]; simpl; auto; discriminate.
Qed.

Lemma http_count_app tr1 tr2 :
  http_count (tr1 ++ tr2) = (http_count tr1 + http_count tr2)%nat.
Proof.
  induction tr1 as [|[] tr1 IH]; simpl; auto.
Qed.

Lemma after_last_http_app evs tr :
  existsb is_http tr = true ->
  after_last_http (evs ++ tr) = after_last_http tr.
Proof.
  intros Htr. induction evs as [|ev evs IH]; simpl; [reflexivity|].
  now rewrite existsb_app, Htr, orb_true_r.
Qed.

Lemma after_http_quiet evs tr i :
  existsb is_http evs = false ->
  after_http i (evs ++ tr) = after_http i tr.
Proof.
  induction evs as [|[] evs IH]; simpl; auto; discriminate.
Qed.

Lemma until_http_quiet evs c tr :
  existsb is_http evs = false ->
  until_http (evs ++ EvHttp c :: tr) = evs.
Proof.
  induction evs as [|[] evs IH]; simpl; auto; try discriminate;
    intros H; now rewrite IH.
Qed.

Lemma until_http_all_quiet evs :
  existsb is_http evs = false -> until_http evs = evs.
Proof.
  induction evs as [|[] evs IH]; simpl; auto; try discriminate;
    intros H; now rewrite IH.
Qed.

(** *** Properties of runs *)

Lemma attempts_remain_S attempt :
  attempts_remain (S attempt) = true -> attempts_remain attempt = true.
Proof.
  unfold attempts_remain, Js.lt.
  destruct (maxAttempts retryConfig); [discriminate|].
  rewrite !Z.ltb_lt. lia.
Qed.

Lemma attempts_remain_le a b :
  (a <= b)%nat -> attempts_remain b = true -> attempts_remain a = true.
Proof.
  induction 1; auto using attempts_remain_S.
Qed.

(** A run is empty when the loop test fails at once, and starts with an
    HTTP attempt otherwise. *)
Lemma runs_head attempt lastError result tr :
  Runs attempt lastError result tr ->
  (attempts_remain attempt = false /\ tr = []) \/
  (attempts_remain attempt = true /\
   exists tr', tr = EvHttp axios_request :: tr').
Proof.
  destruct 1; eauto.
Qed.

Lemma runs_http_pos attempt lastError result tr :
  Runs attempt lastError result tr ->
  attempts_remain attempt = true -> (0 < http_count tr)%nat.
Proof.
  intros Hrun Hrem.
  destruct (runs_head _ _ _ _ Hrun) as [[Hno _]|[_ [tr' ->]]].
  - congruence.
  - simpl. lia.
Qed.

(** Attempts never exceed the budget. *)
Lemma runs_http_count attempt lastError result tr :
  Runs attempt lastError result tr ->
  (attempt <= budget)%nat ->
  (attempt + http_count tr <= budget)%nat.
Proof.
  induction 1 as [a le Hrem | a le r Hrem Hout | a le e evs err Hrem Hout Hc
                 | a le e evs Hrem Hout Hc | a le e evs r tr Hrem Hout Hc Hrun IH];
    intros Hle; simpl; try lia;
    pose proof (attempts_remain_budget _ Hrem) as Hlt.
  - lia.
  - apply catch_shape in Hc as [Hq _]. rewrite (http_count_quiet _ Hq). lia.
  - apply catch_shape in Hc as [Hq _]. rewrite (http_count_quiet _ Hq). lia.
  - apply catch_shape in Hc as [Hq _].
    rewrite http_count_app, (http_count_quiet _ Hq).
    specialize (IH Hlt). lia.
Qed.

(** No timer is set after the last HTTP attempt. *)
Lemma runs_no_trailing_sleep attempt lastError result tr :
  Runs attempt lastError result tr ->
  sleeps (after_last_http tr) = [].
Proof.
  induction 1 as [a le Hrem | a le r Hrem Hout | a le e evs err Hrem Hout Hc
                 | a le e evs Hrem Hout Hc | a le e evs r tr Hrem Hout Hc Hrun IH];
    try reflexivity.
  - destruct (catch_shape _ _ _ _ Hc) as [Hq [Hs|(? & _)]]; [|discriminate].
    simpl. now rewrite Hq.
  - destruct (catch_shape _ _ _ _ Hc) as [Hq [Hs|(? & _)]]; [|discriminate].
    simpl. now rewrite Hq.
  - destruct (catch_shape _ _ _ _ Hc) as [Hq Hshape].
    destruct (runs_head _ _ _ _ Hrun) as [[Hno ->]|[Hyes [tr' ->]]].
    + rewrite app_nil_r. simpl. rewrite Hq.
      destruct Hshape as [Hs|(_ & Hyes & _)]; [exact Hs | congruence].
    + change (EvHttp axios_request :: evs ++ EvHttp axios_request :: tr')
        with ([EvHttp axios_request] ++ evs ++ EvHttp axios_request :: tr')%list.
      rewrite after_last_http_app
        by (rewrite existsb_app; simpl; apply orb_true_r).
      rewrite after_last_http_app by reflexivity. exact IH.
Qed.

Lemma runs_attempt_events attempt lastError result tr :
  Runs attempt lastError result tr ->
  forall j, (j < http_count tr)%nat ->
    attempt_events tr j = Some (iteration_events (attempt + j)).
Proof.
  intros Hrun. runs_induction Hrun; intros j; simpl; try lia.
  - intros Hj. assert (j = 0%nat) as -> by lia.
    unfold attempt_events, iteration_events. simpl.
    now rewrite Nat.add_0_r, Hout.
  - pose proof (catch_shape _ _ _ _ Hc) as [Hq _].
    rewrite (http_count_quiet _ Hq). intros Hj. assert (j = 0%nat) as -> by lia.
    unfold attempt_events, iteration_events. simpl.
    now rewrite Nat.add_0_r, Hout, Hc, until_http_all_quiet.
  - pose proof (catch_shape _ _ _ _ Hc) as [Hq _].
    rewrite (http_count_quiet _ Hq). intros Hj. assert (j = 0%nat) as -> by lia.
    unfold attempt_events, iteration_events. simpl.
    now rewrite Nat.add_0_r, Hout, Hc, until_http_all_quiet.
  - pose proof (catch_shape _ _ _ _ Hc) as [Hq _].
    rewrite http_count_app, (http_count_quiet _ Hq). simpl. intros Hj.
    destruct j as [|j].
    + unfold attempt_events, iteration_events. simpl.
      rewrite Nat.add_0_r, Hout, Hc. simpl. f_equal.
      destruct (runs_head _ _ _ _ Hrun) as [[_ ->]|[_ [tr' ->]]].
      * rewrite app_nil_r. now apply until_http_all_quiet.
      * now apply until_http_quiet.
    + unfold attempt_events in *. simpl.
      rewrite after_http_quiet by exact Hq.
      rewrite IH by lia. do 2 f_equal. lia.
Qed.

Lemma runs_continues attempt lastError result tr :
  Runs attempt lastError result tr ->
  forall j, (j < http_count tr)%nat ->
    (S j < http_count tr)%nat <-> continues (attempt + j) = true.
Proof.
  intros Hrun. runs_induction Hrun; intros j; simpl; try lia.
  - intros Hj. assert (j = 0%nat) as -> by lia.
    unfold continues. rewrite Nat.add_0_r, Hout. split; [lia|discriminate].
  - pose proof (catch_shape _ _ _ _ Hc) as [Hq _].
    rewrite (http_count_quiet _ Hq). intros Hj. assert (j = 0%nat) as -> by lia.
    unfold continues. rewrite Nat.add_0_r, Hout, Hc. simpl.
    split; [lia|discriminate].
  - pose proof (catch_shape _ _ _ _ Hc) as [Hq _].
    rewrite (http_count_quiet _ Hq). intros Hj. assert (j = 0%nat) as -> by lia.
    unfold continues. rewrite Nat.add_0_r, Hout, Hc. simpl.
    split; [lia|discriminate].
  - pose proof (catch_shape _ _ _ _ Hc) as [Hq _].
    rewrite http_count_app, (http_count_quiet _ Hq). simpl. intros Hj.
    destruct j as [|j].
    + unfold continues. rewrite Nat.add_0_r, Hout, Hc. simpl.
      destruct (runs_head _ _ _ _ Hrun) as [[Hno ->]|[Hyes [tr' ->]]];
        rewrite ?Hno, ?Hyes; simpl; split; (lia || discriminate || auto).
    + replace (a + S j)%nat with (S a + j)%nat by lia.
      rewrite <- IH by lia. lia.
Qed.

Lemma runs_result attempt lastError result tr :
  Runs attempt lastError result tr ->
  forall k, http_count tr = S k -> result = final_result (attempt + k).
Proof.
  intros Hrun. runs_induction Hrun; intros k; simpl; try discriminate.
  - intros [= <-]. unfold final_result. now rewrite Nat.add_0_r, Hout.
  - pose proof (catch_shape _ _ _ _ Hc) as [Hq _].
    rewrite (http_count_quiet _ Hq). intros [= <-].
    unfold final_result. now rewrite Nat.add_0_r, Hout, Hc.
  - pose proof (catch_shape _ _ _ _ Hc) as [Hq _].
    rewrite (http_count_quiet _ Hq). intros [= <-].
    unfold final_result. now rewrite Nat.add_0_r, Hout, Hc.
  - pose proof (catch_shape _ _ _ _ Hc) as [Hq _].
    rewrite http_count_app, (http_count_quiet _ Hq). simpl. intros [= Hk].
    destruct k as [|k].
    + destruct (runs_head _ _ _ _ Hrun) as [[Hno ->]|[_ [tr' ->]]];
        [|discriminate].
      inversion Hrun; subst.
      unfold final_result. now rewrite Nat.add_0_r, Hout, Hc.
    + replace (a + S k)%nat with (S a + k)%nat by lia. now apply IH.
Qed.

(** The loop gets past every transient failure while attempts remain. *)
Lemma transient_loops attempt error :
  transient error = true ->
  snd (catch_block attempt error) = CLoop \/
  attempts_remain attempt = false.
Proof.
  intros Ht. destruct (attempts_remain attempt) eqn:Hrem; [left|now right].
  unfold transient in Ht. apply orb_true_iff in Ht as [Hret|H429].
  - now rewrite catch_retriable.
  - unfold status_is in H429.
    destruct (response error) as [r|] eqn:Hresp; [|discriminate].
    apply Z.eqb_eq in H429. now rewrite (catch_rate_limited _ _ r).
Qed.

Lemma runs_reach attempt lastError result tr :
  Runs attempt lastError result tr ->
  forall n,
    (forall i, (i < n)%nat ->
       exists error, transport (attempt + i) = Rejected error /\
                     transient error = true) ->
    attempts_remain (attempt + n) = true ->
    (n < http_count tr)%nat.
Proof.
  intros Hrun. runs_induction Hrun; intros n Hpre Hn.
  - rewrite (attempts_remain_le a (a + n)) in Hrem by (lia || assumption).
    discriminate.
  - destruct n as [|n]; [simpl; lia|].
    destruct (Hpre 0%nat) as (e & He & _); [lia|].
    rewrite Nat.add_0_r in He. congruence.
  - destruct n as [|n]; [simpl; lia|].
    destruct (Hpre 0%nat) as (e' & He & Ht); [lia|].
    rewrite Nat.add_0_r, Hout in He. injection He as <-.
    destruct (transient_loops (S a) e Ht) as [Hl|Hno].
    + rewrite Hc in Hl. discriminate.
    + rewrite (attempts_remain_le (S a) (a + S n)) in Hno by (lia || assumption).
      discriminate.
  - destruct n as [|n]; [simpl; lia|].
    destruct (Hpre 0%nat) as (e' & He & Ht); [lia|].
    rewrite Nat.add_0_r, Hout in He. injection He as <-.
    destruct (transient_loops (S a) e Ht) as [Hl|Hno].
    + rewrite Hc in Hl. discriminate.
    + rewrite (attempts_remain_le (S a) (a + S n)) in Hno by (lia || assumption).
      discriminate.
  - pose proof (catch_shape _ _ _ _ Hc) as [Hq _].
    simpl. rewrite http_count_app, (http_count_quiet _ Hq). simpl.
    destruct n as [|n]; [lia|].
    apply -> Nat.succ_lt_mono. apply IH.
    + intros i Hi. replace (S a + i)%nat with (a + S i)%nat by lia.
      apply Hpre. lia.
    + now replace (S a + n)%nat with (a + S n)%nat by lia.
Qed.

Lemma attempts_remain_iff attempt m :
  maxAttempts retryConfig = Js.Num m ->
  attempts_remain attempt = true <-> Z.of_nat attempt < m.
Proof.
  intros Hm. unfold attempts_remain, Js.lt. rewrite Hm. apply Z.ltb_lt.
Qed.

Lemma attempts_remain_false_iff attempt m :
  maxAttempts retryConfig = Js.Num m ->
  attempts_remain attempt = false <-> m <= Z.of_nat attempt.
Proof.
  intros Hm. unfold attempts_remain, Js.lt. rewrite Hm. apply Z.ltb_ge.
Qed.

Lemma budget_num m : maxAttempts retryConfig = Js.Num m -> budget = Z.to_nat m.
Proof. unfold budget. now intros ->. Qed.

(** The only thing the [catch] block throws is an [Error]. *)
Lemma catch_throws_error attempt error evs e :
  catch_block attempt error = (evs, CThrow e) -> exists msg, e = Js.Error msg.
Proof.
  destruct (attempts_remain attempt) eqn:Hrem;
    catch_cases; decide_status; intros [= <- <-] || discriminate; eauto.
Qed.

(** With [lastError] defined, lines 116-118 do not throw the [TypeError]
    of reading a property of [undefined]. *)
Lemma terminal_error_defined attempt error :
  terminal_error attempt (Some error) <>
  Thrown (Js.TypeError
            "Cannot read properties of undefined (reading 'response')").
Proof.
  unfold terminal_error.
  destruct (Js.to_string (apiError error)); discriminate.
Qed.

(** Reading [lastError.response] fails only if the loop test fails before
    any attempt was made. *)
Lemma runs_no_type_error attempt lastError result tr :
  Runs attempt lastError result tr ->
  lastError <> None \/ attempts_remain attempt = true ->
  result <> Thrown (Js.TypeError
                      "Cannot read properties of undefined (reading 'response')").
Proof.
  intros Hrun. runs_induction Hrun; intros Hdef; try discriminate.
  - destruct Hdef as [Hdef|Hdef]; [|congruence].
    destruct lastE; [apply terminal_error_defined | congruence].
  - apply catch_throws_error in Hc as [msg' ->]. discriminate.
  - apply terminal_error_defined.
  - apply IH. left. discriminate.
Qed.

(** When every allowed attempt meets a transient failure, all of them are
    made and the function ends in the terminal error built from the last
    of them. *)
Lemma runs_exhausted_budget m result tr :
  maxAttempts retryConfig = Js.Num m ->
  1 <= m ->
  (forall i, (i < Z.to_nat m)%nat ->
     exists error, transport i = Rejected error /\ transient error = true) ->
  Runs 0 None result tr ->
  http_count tr = Z.to_nat m /\
  exists last,
    transport (Z.to_nat m - 1) = Rejected last /\
    transient last = true /\
    result = terminal_error (Z.to_nat m) (Some last).
Proof.
  intros Hm Hpos Hall Hrun.
  assert (Hcount : http_count tr = Z.to_nat m).
  { pose proof (runs_http_count _ _ _ _ Hrun) as Hle.
    rewrite (budget_num _ Hm) in Hle. specialize (Hle ltac:(lia)).
    pose proof (runs_reach _ _ _ _ Hrun (Z.to_nat m - 1)) as Hge.
    simpl in Hge, Hle.
    assert ((Z.to_nat m - 1 < http_count tr)%nat); [|lia].
    apply Hge.
    - intros i Hi. apply Hall. lia.
    - apply (attempts_remain_iff _ m Hm). lia. }
  split; [exact Hcount|].
  destruct (Hall (Z.to_nat m - 1)%nat) as (last & Hlast & Ht); [lia|].
  exists last. repeat split; try assumption.
  rewrite (runs_result _ _ _ _ Hrun (Z.to_nat m - 1)) by lia.
  unfold final_result. rewrite Nat.add_0_l, Hlast.
  replace (S (Z.to_nat m - 1)) with (Z.to_nat m) by lia.
  assert (Hno : attempts_remain (Z.to_nat m) = false).
  { apply (attempts_remain_false_iff _ m Hm). lia. }
  unfold transient in Ht. apply orb_true_iff in Ht as [Hret|H429].
  - rewrite catch_retriable_last by assumption. reflexivity.
  - unfold status_is in H429.
    destruct (response last) as [r|] eqn:Hresp; [|discriminate].
    apply Z.eqb_eq in H429.
    rewrite (catch_rate_limited_last _ _ r) by assumption. reflexivity.
Qed.

(** Every HTTP attempt of a run sends the same request, the one built from
    the client and the arguments. *)
Lemma runs_http_requests attempt lastError result tr :
  Runs attempt lastError result tr ->
  forall r, In (EvHttp r) tr -> r = axios_request.
Proof.
  assert (Hquiet : forall evs r, existsb is_http evs = false ->
                                 ~ In (EvHttp r) evs).
  { induction evs as [|ev evs IH]; simpl; intros r Hq Hin; [exact Hin|].
    apply orb_false_iff in Hq as [Hev Hq].
    destruct Hin as [->|Hin]; [discriminate | now apply (IH r)]. }
  intros Hrun. runs_induction Hrun; intros r0; simpl.
  - tauto.
  - intros [[= <-]|[]]. reflexivity.
  - intros [[= <-]|Hin]; [reflexivity|].
    apply catch_shape in Hc as [Hq _]. now apply Hquiet in Hin.
  - intros [[= <-]|Hin]; [reflexivity|].
    apply catch_shape in Hc as [Hq _]. now apply Hquiet in Hin.
  - intros [[= <-]|Hin]; [reflexivity|].
    apply in_app_or in Hin as [Hin|Hin]; [|now apply IH].
    apply catch_shape in Hc as [Hq _]. now apply Hquiet in Hin.
Qed.

(** *** Specification of [request] *)

(** A failed attempt that is not followed by another one: nothing but the
    failure log comes after it when it is fatal. *)
Lemma fatal_stops result tr i error :
  Runs 0 None result tr ->
  (i < http_count tr)%nat ->
  transport i = Rejected error ->
  fatal error = true ->
  http_count tr = S i /\
  attempt_events tr i = Some [EvConsoleError (errorDetails (S i) error)].
Proof.
  intros Hrun Hi Hout Hfat.
  destruct (catch_block (S i) error) as [evs ctl] eqn:Hc.
  destruct (catch_fatal _ _ _ _ Hfat Hc) as [-> Hctl].
  split.
  - pose proof (runs_continues _ _ _ _ Hrun i Hi) as Hnext.
    unfold continues in Hnext. simpl in Hnext. rewrite Hout, Hc in Hnext.
    destruct (Nat.lt_ge_cases (S i) (http_count tr)) as [Hlt|Hge]; [|lia].
    apply Hnext in Hlt. simpl in Hlt. destruct ctl; congruence.
  - rewrite (runs_attempt_events _ _ _ _ Hrun i Hi).
    unfold iteration_events. simpl. now rewrite Hout, Hc.
Qed.

(** C1. For every call and every policy with [maxAttempts >= 1], [request]
    ends having made at least 1 and at most [maxAttempts] HTTP attempts; no
    timer is set after the last attempt; and an attempt classified as fatal
    (404, 401, or another status below 500 other than 429) is the last one,
    followed by the failure log only. *)
Theorem request_attempt_bounds m :
  maxAttempts retryConfig = Js.Num m ->
  1 <= m ->
  exists result tr,
    request = Some (result, tr) /\
    (1 <= http_count tr)%nat /\
    Z.of_nat (http_count tr) <= m /\
    sleeps (after_last_http tr) = [] /\
    forall i error,
      (i < http_count tr)%nat ->
      transport i = Rejected error ->
      fatal error = true ->
      http_count tr = S i /\
      attempt_events tr i = Some [EvConsoleError (errorDetails (S i) error)].
Proof.
  intros Hm Hpos.
  destruct request_ends as (result & tr & Hreq & Hrun).
  exists result, tr. split; [exact Hreq|].
  split; [|split; [|split]].
  - apply (runs_http_pos _ _ _ _ Hrun).
    apply (attempts_remain_iff _ m Hm). lia.
  - pose proof (runs_http_count _ _ _ _ Hrun) as Hle.
    rewrite (budget_num _ Hm) in Hle. specialize (Hle ltac:(lia)).
    simpl in Hle. lia.
  - exact (runs_no_trailing_sleep _ _ _ _ Hrun).
  - intros i error. now apply (fatal_stops result).
Qed.

(** An iteration that goes back to the loop test with attempts remaining
    is followed by another HTTP attempt, and everything the [catch] block
    emitted lies between the two. *)
Lemma looping_iteration result tr i error evs :
  Runs 0 None result tr ->
  (i < http_count tr)%nat ->
  transport i = Rejected error ->
  catch_block (S i) error = (evs, CLoop) ->
  attempts_remain (S i) = true ->
  (S i < http_count tr)%nat /\ attempt_events tr i = Some evs.
Proof.
  intros Hrun Hi Hout Hc Hrem. split.
  - apply (runs_continues _ _ _ _ Hrun i Hi).
    unfold continues. now rewrite Nat.add_0_l, Hout, Hc.
  - rewrite (runs_attempt_events _ _ _ _ Hrun i Hi).
    unfold iteration_events. now rewrite Nat.add_0_l, Hout, Hc.
Qed.

(** The wait after a 429 with attempts remaining is [retryAfter], whatever
    the backoff settings. *)
Lemma rate_limit_between_attempts result tr i error r :
  Runs 0 None result tr ->
  (i < http_count tr)%nat ->
  transport i = Rejected error ->
  response error = Some r ->
  status r = 429 ->
  attempts_remain (S i) = true ->
  (S i < http_count tr)%nat /\
  attempt_events tr i =
    Some [EvConsoleError (errorDetails (S i) error);
          EvConsoleLog (rate_limit_line r);
          EvSleep (retryAfter r)].
Proof.
  intros Hrun Hi Hout Hresp Hst Hrem.
  apply (looping_iteration result tr i error); auto.
  now apply catch_rate_limited.
Qed.

(** The part of C2 that the code does implement: after a 429 on attempt
    [i + 1] with attempts remaining, [request] logs the wait, sleeps
    [retryAfter] (a function of the response headers alone, so that no
    backoff setting enters it) and then makes the next attempt. *)
Lemma rate_limit_wait :
  exists result tr,
    request = Some (result, tr) /\
    forall i error r,
      (i < http_count tr)%nat ->
      transport i = Rejected error ->
      response error = Some r ->
      status r = 429 ->
      attempts_remain (S i) = true ->
      (S i < http_count tr)%nat /\
      attempt_events tr i =
        Some [EvConsoleError (errorDetails (S i) error);
              EvConsoleLog (rate_limit_line r);
              EvSleep (retryAfter r)].
Proof.
  destruct request_ends as (result & tr & Hreq & Hrun).
  exists result, tr. split; [exact Hreq|].
  intros i error r. now apply (rate_limit_between_attempts result).
Qed.




(** C4 (amended). For every policy with [maxAttempts >= 1], a 404 or a 401
    on the first attempt ends [request] after exactly that one attempt, with
    no sleep, throwing ["Endpoint not found: " ++ endpoint] for 404 and
    ["Invalid API key"] for 401. *)
Theorem fatal_on_first_attempt m error r :
  maxAttempts retryConfig = Js.Num m ->
  1 <= m ->
  transport 0 = Rejected error ->
  response error = Some r ->
  status r = 404 \/ status r = 401 ->
  exists tr,
    request =
      Some (Thrown (Js.Error (if status r =? 404
                              then "Endpoint not found: " ++ endpoint
                              else "Invalid API key")), tr) /\
    tr = [EvHttp axios_request; EvConsoleError (errorDetails 1 error)] /\
    http_count tr = 1%nat /\
    sleeps tr = [].
Proof.
  intros Hm Hpos Hout Hresp Hst.
  assert (Hrem : attempts_remain 0 = true)
    by (apply (attempts_remain_iff _ m Hm); lia).
  eexists. split; [|split; [reflexivity|split; reflexivity]].
  unfold request. rewrite iterations_budget. cbn [request_loop].
  rewrite Hrem, Hout.
  destruct Hst as [Hst|Hst]; rewrite Hst; cbn [Z.eqb Pos.eqb].
  - rewrite catch_not_found; [reflexivity|].
    unfold status_is. rewrite Hresp, Hst. reflexivity.
  - rewrite catch_unauthorized; [reflexivity|].
    unfold status_is. rewrite Hresp, Hst. reflexivity.
Qed.

Lemma not_transient_fatal error : transient error = false -> fatal error = true.
Proof.
  unfold transient, fatal, retriable, status_is, below_500.
  destruct (response error) as [r|]; [|discriminate].
  destruct (Z.leb_spec 500 (status r)); [discriminate|].
  destruct (Z.eqb_spec (status r) 429); [discriminate|].
  destruct (Z.ltb_spec (status r) 500); [|lia].
  intros _. cbn [negb andb]. now rewrite orb_true_r.
Qed.

(** C5 (amended). [request] makes another attempt after a failed one only
    when the failure was a status of 500 and above, a network-level failure,
    or a 429; any response with a status below 500 other than 401, 404 and
    429 ends the invocation at once with the terminal error, without a
    further attempt and without a sleep. *)
Theorem retry_only_on_transient :
  exists result tr,
    request = Some (result, tr) /\
    forall i error,
      (i < http_count tr)%nat ->
      transport i = Rejected error ->
      ((S i < http_count tr)%nat ->
       retriable error = true \/ status_is error 429 = true) /\
      (forall r,
         response error = Some r ->
         status r < 500 ->
         status r <> 401 -> status r <> 404 -> status r <> 429 ->
         http_count tr = S i /\
         attempt_events tr i = Some [EvConsoleError (errorDetails (S i) error)] /\
         result = terminal_error (S i) (Some error)).
Proof.
  destruct request_ends as (result & tr & Hreq & Hrun).
  exists result, tr. split; [exact Hreq|].
  intros i error Hi Hout. split.
  - intros Hnext. apply orb_true_iff. fold (transient error).
    destruct (transient error) eqn:Ht; [reflexivity|].
    apply not_transient_fatal in Ht.
    destruct (fatal_stops result tr i error Hrun Hi Hout Ht) as [Hlast _]. lia.
  - intros r Hresp Hlt H401 H404 H429.
    assert (Hfat : fatal error = true).
    { apply not_transient_fatal. unfold transient, retriable, status_is.
      rewrite Hresp. destruct (Z.leb_spec 500 (status r)); [lia|].
      destruct (Z.eqb_spec (status r) 429); [lia|reflexivity]. }
    destruct (fatal_stops result tr i error Hrun Hi Hout Hfat) as [Hlast Hev].
    repeat split; try assumption.
    rewrite (runs_result _ _ _ _ Hrun i Hlast).
    unfold final_result. rewrite Nat.add_0_l, Hout.
    rewrite (catch_other_below_500 _ _ r) by assumption. reflexivity.
Qed.

(** The cause reported by the terminal error, in order of preference. *)
Lemma apiError_preference error :
  let body := match response error with
              | Some r => data r
              | None => Js.Undefined
              end in
  (Js.truthy (Js.opt_prop body "error") = true ->
   apiError error = Js.opt_prop body "error") /\
  (Js.truthy (Js.opt_prop body "error") = false ->
   Js.truthy (Js.opt_prop body "message") = true ->
   apiError error = Js.opt_prop body "message") /\
  (Js.truthy (Js.opt_prop body "error") = false ->
   Js.truthy (Js.opt_prop body "message") = false ->
   apiError error = Js.Str (message error)).
Proof.
  intros body. unfold apiError, Js.or. fold body.
  repeat split; intros; repeat match goal with H : _ = _ |- _ => rewrite H end;
    reflexivity.
Qed.

(** What lines 116-118 throw when each of the [maxAttempts] attempts meets
    a transient failure (5xx, network failure or 429): the cause is taken
    from the last failure, the [error] field of its response body if
    truthy, else the [message] field of the body if truthy, else the
    transport's error text; if the cause has a string form, the error
    thrown is ["Instantly API error after <maxAttempts> attempts: "]
    followed by that form, and otherwise it is the [TypeError] of the
    conversion. *)
Lemma exhaustion_error m :
  maxAttempts retryConfig = Js.Num m ->
  1 <= m ->
  (forall i, (i < Z.to_nat m)%nat ->
     exists error, transport i = Rejected error /\
                   (retriable error = true \/ status_is error 429 = true)) ->
  exists last tr,
    transport (Z.to_nat m - 1) = Rejected last /\
    request =
      Some (match Js.to_string (apiError last) with
            | Some cause =>
                Thrown (Js.Error ("Instantly API error after "
                                  ++ Js.Z_to_string m
                                  ++ " attempts: " ++ cause))
            | None =>
                Thrown (Js.TypeError "Cannot convert object to primitive value")
            end, tr) /\
    http_count tr = Z.to_nat m /\
    let body := match response last with
                | Some r => data r
                | None => Js.Undefined
                end in
    (Js.truthy (Js.opt_prop body "error") = true ->
     apiError last = Js.opt_prop body "error") /\
    (Js.truthy (Js.opt_prop body "error") = false ->
     Js.truthy (Js.opt_prop body "message") = true ->
     apiError last = Js.opt_prop body "message") /\
    (Js.truthy (Js.opt_prop body "error") = false ->
     Js.truthy (Js.opt_prop body "message") = false ->
     apiError last = Js.Str (message last)).
Proof.
  intros Hm Hpos Hall.
  destruct request_ends as (result & tr & Hreq & Hrun).
  destruct (runs_exhausted_budget m result tr Hm Hpos) as (Hcount & last & Hlast & _ & Hres);
    [|exact Hrun|].
  { intros i Hi. destruct (Hall i Hi) as (e & He & Ht).
    exists e. split; [exact He|]. now apply orb_true_iff. }
  exists last, tr. split; [exact Hlast|]. split; [|split; [exact Hcount|]].
  - rewrite Hreq, Hres. unfold terminal_error. now rewrite Z2Nat.id by lia.
  - apply apiError_preference.
Qed.

(** C7. For every attempt number [k] with [1 <= k <= maxAttempts] that is
    reached (every earlier attempt met a transient failure), a fulfilled
    (2xx) response on attempt [k] makes [request] return [response.data]
    as it is; attempt [k] is the last one and nothing, in particular no
    sleep, follows it. *)
Theorem success_on_attempt m k r :
  maxAttempts retryConfig = Js.Num m ->
  (1 <= k)%nat ->
  Z.of_nat k <= m ->
  (forall i, (i < k - 1)%nat ->
     exists error, transport i = Rejected error /\
                   (retriable error = true \/ status_is error 429 = true)) ->
  transport (k - 1) = Resolved r ->
  exists tr,
    request = Some (Returned (data r), tr) /\
    http_count tr = k /\
    attempt_events tr (k - 1) = Some [] /\
    sleeps (after_last_http tr) = [].
Proof.
  intros Hm Hk Hkm Hpre Hout.
  destruct request_ends as (result & tr & Hreq & Hrun).
  assert (Hreach : (k - 1 < http_count tr)%nat).
  { apply (runs_reach _ _ _ _ Hrun).
    - intros i Hi. destruct (Hpre i Hi) as (e & He & Ht).
      exists e. split; [exact He|]. now apply orb_true_iff.
    - apply (attempts_remain_iff _ m Hm). lia. }
  assert (Hlast : http_count tr = k).
  { pose proof (runs_continues _ _ _ _ Hrun _ Hreach) as Hnext.
    unfold continues in Hnext. rewrite Nat.add_0_l, Hout in Hnext.
    destruct (Nat.lt_ge_cases (S (k - 1)) (http_count tr)) as [Hlt|Hge]; [|lia].
    apply Hnext in Hlt. discriminate. }
  exists tr. repeat split.
  - rewrite Hreq. do 2 f_equal.
    rewrite (runs_result _ _ _ _ Hrun (k - 1)) by lia.
    unfold final_result. now rewrite Nat.add_0_l, Hout.
  - exact Hlast.
  - rewrite (runs_attempt_events _ _ _ _ Hrun _ Hreach).
    unfold iteration_events. now rewrite Nat.add_0_l, Hout.
  - exact (runs_no_trailing_sleep _ _ _ _ Hrun).
Qed.

(** C9. With [maxAttempts >= 1] the first loop test succeeds, so lines
    116-118 are reached only after a failed attempt has been stored in
    [lastError]: at least one attempt is made, the [TypeError] of reading
    [lastError.response] on [undefined] is not thrown, and whatever is
    thrown follows a rejected last attempt. With [maxAttempts < 1] the
    loop body never runs, and reading [lastError.response] throws that
    [TypeError] before any attempt. *)
Theorem lastError_defined m :
  maxAttempts retryConfig = Js.Num m ->
  exists result tr,
    request = Some (result, tr) /\
    (1 <= m ->
     (1 <= http_count tr)%nat /\
     result <>
       Thrown (Js.TypeError
                 "Cannot read properties of undefined (reading 'response')") /\
     (forall e, result = Thrown e ->
      exists last, transport (http_count tr - 1) = Rejected last)) /\
    (m < 1 ->
     tr = [] /\
     result = Thrown (Js.TypeError
                        "Cannot read properties of undefined (reading 'response')")).
Proof.
  intros Hm.
  destruct request_ends as (result & tr & Hreq & Hrun).
  exists result, tr. split; [exact Hreq|]. split.
  - intros Hpos.
    assert (Hrem : attempts_remain 0 = true)
      by (apply (attempts_remain_iff _ m Hm); lia).
    pose proof (runs_http_pos _ _ _ _ Hrun Hrem) as Hcount.
    split; [lia|]. split.
    + apply (runs_no_type_error _ _ _ _ Hrun). now right.
    + intros e Hres.
      rewrite (runs_result _ _ _ _ Hrun (http_count tr - 1)) in Hres by lia.
      unfold final_result in Hres. rewrite Nat.add_0_l in Hres.
      destruct (transport (http_count tr - 1)) as [r|last]; [discriminate|].
      now exists last.
  - intros Hneg.
    assert (Hrem : attempts_remain 0 = false)
      by (apply (attempts_remain_false_iff _ m Hm); lia).
    destruct (runs_head _ _ _ _ Hrun) as [[_ ->]|[Hyes _]]; [|congruence].
    split; [reflexivity|].
    inversion Hrun; subst; try congruence. reflexivity.
Qed.

(** C10. A 429 uses up an attempt like any other failure: when each of the
    [maxAttempts] attempts is answered with 429, the [i]-th failure is
    logged with attempt number [i + 1]; every 429 but the last is followed
    by the rate-limit wait and another attempt; the last one is followed by
    the failure log only, and [request] throws the terminal error reporting
    exactly [maxAttempts] attempts (or, when the cause taken from the last
    body has no string form, the [TypeError] of converting it). *)
Theorem rate_limited_exhaustion m :
  maxAttempts retryConfig = Js.Num m ->
  1 <= m ->
  (forall i, (i < Z.to_nat m)%nat ->
     exists error r, transport i = Rejected error /\
                     response error = Some r /\ status r = 429) ->
  exists last tr,
    transport (Z.to_nat m - 1) = Rejected last /\
    request =
      Some (match Js.to_string (apiError last) with
            | Some cause =>
                Thrown (Js.Error ("Instantly API error after "
                                  ++ Js.Z_to_string m
                                  ++ " attempts: " ++ cause))
            | None =>
                Thrown (Js.TypeError "Cannot convert object to primitive value")
            end, tr) /\
    http_count tr = Z.to_nat m /\
    sleeps (after_last_http tr) = [] /\
    attempt_events tr (Z.to_nat m - 1) =
      Some [EvConsoleError (errorDetails (Z.to_nat m) last)] /\
    forall i, (i < Z.to_nat m - 1)%nat ->
      exists error r,
        transport i = Rejected error /\ response error = Some r /\
        attempt_events tr i =
          Some [EvConsoleError (errorDetails (S i) error);
                EvConsoleLog (rate_limit_line r);
                EvSleep (retryAfter r)].
Proof.
  intros Hm Hpos Hall.
  destruct request_ends as (result & tr & Hreq & Hrun).
  assert (Htrans : forall i, (i < Z.to_nat m)%nat ->
            exists error, transport i = Rejected error /\ transient error = true).
  { intros i Hi. destruct (Hall i Hi) as (e & r & He & Hresp & Hst).
    exists e. split; [exact He|]. unfold transient, status_is.
    rewrite Hresp, Hst. apply orb_true_r. }
  destruct (runs_exhausted_budget m result tr Hm Hpos Htrans Hrun)
    as (Hcount & last & Hlast & _ & Hres).
  assert (Hmid : forall i, (i < Z.to_nat m - 1)%nat ->
            exists error r,
              transport i = Rejected error /\ response error = Some r /\
              attempt_events tr i =
                Some [EvConsoleError (errorDetails (S i) error);
                      EvConsoleLog (rate_limit_line r);
                      EvSleep (retryAfter r)]).
  { intros i Hi. destruct (Hall i) as (e & r & He & Hresp & Hst); [lia|].
    exists e, r. repeat split; try assumption.
    apply (rate_limit_between_attempts result tr i e r); auto; try lia.
    apply (attempts_remain_iff _ m Hm). lia. }
  assert (Hend : attempt_events tr (Z.to_nat m - 1) =
                   Some [EvConsoleError (errorDetails (Z.to_nat m) last)]).
  { rewrite (runs_attempt_events _ _ _ _ Hrun) by lia.
    unfold iteration_events. rewrite Nat.add_0_l, Hlast.
    replace (S (Z.to_nat m - 1)) with (Z.to_nat m) by lia.
    destruct (Hall (Z.to_nat m - 1)%nat) as (e & r & He & Hresp & Hst); [lia|].
    rewrite Hlast in He. injection He as <-.
    rewrite (catch_rate_limited_last _ _ r); auto.
    apply (attempts_remain_false_iff _ m Hm). lia. }
  exists last, tr. split; [exact Hlast|]. split; [|split; [exact Hcount|]].
  - rewrite Hreq, Hres. unfold terminal_error. now rewrite Z2Nat.id by lia.
  - split; [exact (runs_no_trailing_sleep _ _ _ _ Hrun)|].
    split; [exact Hend|exact Hmid].
Qed.

(** *** Further properties of [request] *)

Lemma sleeps_app tr1 tr2 :
  sleeps (tr1 ++ tr2) = (sleeps tr1 ++ sleeps tr2)%list.
Proof.
  induction tr1 as [|[] tr1 IH]; simpl; auto. now rewrite IH.
Qed.

Lemma logged_attempts_app tr1 tr2 :
  logged_attempts (tr1 ++ tr2) =
  (logged_attempts tr1 ++ logged_attempts tr2)%list.
Proof.
  induction tr1 as [|[] tr1 IH]; simpl; auto. now rewrite IH.
Qed.

(** What the [catch] block emits: always the failure log, and after it the
    retry line and the sleep exactly when it returns to the loop test with
    attempts remaining. *)
Lemma catch_events attempt error evs ctl :
  catch_block attempt error = (evs, ctl) ->
  (ctl = CLoop /\ attempts_remain attempt = true /\
   exists line d, evs = [EvConsoleError (errorDetails attempt error);
                         EvConsoleLog line; EvSleep d]) \/
  ((ctl <> CLoop \/ attempts_remain attempt = false) /\
   evs = [EvConsoleError (errorDetails attempt error)]).
Proof.
  destruct (attempts_remain attempt) eqn:Hrem;
    catch_cases; decide_status;
    intros [= <- <-];
    first [ left; split; [reflexivity|]; split; [reflexivity|]; eauto
          | right; split; [|reflexivity];
            first [left; discriminate | right; reflexivity] ].
Qed.

(** X1. Every HTTP attempt of an invocation, retries included, hands axios
    the same request: the URL is [baseUrl ++ endpoint], the headers are the
    JSON content type and the bearer credential, and the payload travels as
    query parameters when the method is GET and as the body otherwise. *)
Theorem http_attempts_identical :
  exists result tr,
    request = Some (result, tr) /\
    forall r, In (EvHttp r) tr ->
      req_url r = baseUrl this ++ endpoint /\
      req_method r = method /\
      req_headers r = [("Content-Type", "application/json");
                       ("Authorization", "Bearer " ++ apiKey this)] /\
      (method = "GET" ->
       req_data r = Js.Undefined /\ req_params r = data_arg) /\
      (method <> "GET" ->
       req_data r = data_arg /\ req_params r = Js.Undefined).
Proof.
  destruct request_ends as (result & tr & Hreq & Hrun).
  exists result, tr. split; [exact Hreq|].
  intros r Hin. rewrite (runs_http_requests _ _ _ _ Hrun r Hin).
  unfold axios_request. cbn [req_url req_method req_headers req_data req_params].
  repeat split; try reflexivity.
  - now apply String.eqb_eq in H as ->.
  - now apply String.eqb_eq in H as ->.
  - now apply String.eqb_neq in H as ->.
  - now apply String.eqb_neq in H as ->.
Qed.

Lemma runs_sleep_count attempt lastError result tr :
  Runs attempt lastError result tr ->
  List.length (sleeps tr) = pred (http_count tr).
Proof.
  intros Hrun. runs_induction Hrun; try reflexivity.
  - destruct (catch_events _ _ _ _ Hc) as [(? & _)|[_ ->]]; [discriminate|].
    reflexivity.
  - destruct (catch_events _ _ _ _ Hc) as [(? & _)|[_ ->]]; [discriminate|].
    reflexivity.
  - destruct (catch_events _ _ _ _ Hc)
      as [(_ & Hyes & line & d & ->)|[[Hctl|Hno] ->]].
    + pose proof (runs_http_pos _ _ _ _ Hrun Hyes) as Hpos.
      simpl in *. rewrite IH. lia.
    + congruence.
    + destruct (runs_head _ _ _ _ Hrun) as [[_ ->]|[Hyes _]]; [|congruence].
      reflexivity.
Qed.

(** X2. An invocation sets exactly one timer between two consecutive HTTP
    attempts, as the last thing before the later one, and none before the
    first attempt or after the last: nothing happens before the first
    attempt; what follows an attempt up to the next one ends with the one
    sleep it holds; what follows the last attempt holds no sleep; so the
    number of sleeps is the number of attempts minus one. *)
Theorem one_sleep_between_attempts :
  exists result tr,
    request = Some (result, tr) /\
    until_http tr = [] /\
    (forall i, (S i < http_count tr)%nat ->
       exists before d,
         attempt_events tr i = Some (before ++ [EvSleep d])%list /\
         sleeps before = []) /\
    (forall i, http_count tr = S i ->
       exists evs, attempt_events tr i = Some evs /\ sleeps evs = []) /\
    List.length (sleeps tr) = (http_count tr - 1)%nat.
Proof.
  destruct request_ends as (result & tr & Hreq & Hrun).
  exists result, tr. split; [exact Hreq|].
  assert (Hshape : forall i, (i < http_count tr)%nat ->
            if continues i
            then exists before d,
                   iteration_events i = (before ++ [EvSleep d])%list /\
                   sleeps before = []
            else sleeps (iteration_events i) = []).
  { intros i _. unfold continues, iteration_events.
    destruct (transport i) as [r|error]; [reflexivity|].
    destruct (catch_block (S i) error) as [evs ctl] eqn:Hc. cbn [fst snd].
    destruct (catch_events _ _ _ _ Hc)
      as [(-> & Hyes & line & d & ->)|[[Hctl|Hno] ->]].
    - rewrite Hyes.
      exists [EvConsoleError (errorDetails (S i) error); EvConsoleLog line], d.
      split; reflexivity.
    - destruct ctl; try reflexivity. congruence.
    - rewrite Hno. destruct ctl; reflexivity. }
  split; [|split; [|split]].
  - destruct (runs_head _ _ _ _ Hrun) as [[_ ->]|[_ [tr' ->]]]; reflexivity.
  - intros i Hi.
    assert (Hi' : (i < http_count tr)%nat) by lia.
    specialize (Hshape i Hi').
    apply (runs_continues _ _ _ _ Hrun i Hi') in Hi.
    rewrite Nat.add_0_l in Hi. rewrite Hi in Hshape.
    destruct Hshape as (before & d & Hev & Hquiet).
    exists before, d. split; [|exact Hquiet].
    now rewrite (runs_attempt_events _ _ _ _ Hrun i Hi'), Nat.add_0_l, Hev.
  - intros i Hlast.
    assert (Hi' : (i < http_count tr)%nat) by lia.
    specialize (Hshape i Hi').
    destruct (continues i) eqn:Hcont.
    + apply (runs_continues _ _ _ _ Hrun i Hi') in Hcont. lia.
    + exists (iteration_events i). split; [|exact Hshape].
      now rewrite (runs_attempt_events _ _ _ _ Hrun i Hi'), Nat.add_0_l.
  - rewrite (runs_sleep_count _ _ _ _ Hrun). lia.
Qed.

Lemma terminal_error_thrown attempt lastError :
  exists e, terminal_error attempt lastError = Thrown e.
Proof.
  unfold terminal_error. destruct lastError as [error|]; [|eauto].
  destruct (Js.to_string (apiError error)); eauto.
Qed.

Lemma runs_logged_attempts attempt lastError result tr :
  Runs attempt lastError result tr ->
  logged_attempts tr =
    seq (S attempt)
        (match result with
         | Returned _ => pred (http_count tr)
         | Thrown _ => http_count tr
         end).
Proof.
  intros Hrun. runs_induction Hrun.
  - destruct (terminal_error_thrown a lastE) as [e ->]. reflexivity.
  - reflexivity.
  - destruct (catch_events _ _ _ _ Hc) as [(? & _)|[_ ->]]; [discriminate|].
    reflexivity.
  - destruct (catch_events _ _ _ _ Hc) as [(? & _)|[_ ->]]; [discriminate|].
    destruct (terminal_error_thrown (S a) (Some e)) as [e' ->]. reflexivity.
  - assert (Hlog : logged_attempts evs = [S a] /\ http_count evs = 0%nat).
    { destruct (catch_events _ _ _ _ Hc)
        as [(_ & _ & line & d & ->)|[_ ->]]; split; reflexivity. }
    destruct Hlog as [Hlog Hq].
    cbn [logged_attempts http_count].
    rewrite logged_attempts_app, http_count_app, Hlog, Hq, IH.
    cbn [Nat.add app].
    destruct r as [v|err].
    + destruct (runs_head _ _ _ _ Hrun) as [[_ ->]|[_ [tr' ->]]].
      * inversion Hrun; subst.
        destruct (Js.to_string (apiError e)); discriminate.
      * reflexivity.
    + reflexivity.
Qed.

(** X3. Every failed attempt is written to the console exactly once, with
    consecutive attempt numbers starting at 1: all attempts when the
    invocation throws, all but the last when it returns. *)
Theorem failures_logged_in_order :
  exists result tr,
    request = Some (result, tr) /\
    logged_attempts tr =
      seq 1 (match result with
             | Returned _ => http_count tr - 1
             | Thrown _ => http_count tr
             end).
Proof.
  destruct request_ends as (result & tr & Hreq & Hrun).
  exists result, tr. split; [exact Hreq|].
  rewrite (runs_logged_attempts _ _ _ _ Hrun).
  destruct result; f_equal; lia.
Qed.

Lemma catch_no_throw attempt error :
  status_is error 404 = false ->
  status_is error 401 = false ->
  snd (catch_block attempt error) = CBreak \/
  snd (catch_block attempt error) = CLoop.
Proof.
  intros H404 H401. unfold catch_block. rewrite H404, H401.
  destruct (response error) as [r|]; unfold below_500;
    repeat match goal with
           | |- context [if ?b then _ else _] => destruct b
           end; auto.
Qed.

(** X4. The ways an invocation can end. Either no attempt is made and
    reading [lastError.response] throws a [TypeError] (the first loop test
    fails), or the last attempt decides: fulfilled, its [data] is returned;
    rejected with 404 or 401, the dedicated error is thrown; rejected
    otherwise, the cause is taken from that last failure and, if it has a
    string form, the error thrown counts exactly the attempts made and
    quotes it, while if it has none (an object with an own [toString]
    key, or an array that holds one) the template literal of line 118
    throws a [TypeError]. *)
Theorem request_outcomes :
  exists result tr,
    request = Some (result, tr) /\
    ((attempts_remain 0 = false /\ tr = [] /\
      result = Thrown (Js.TypeError
                         "Cannot read properties of undefined (reading 'response')"))
     \/
     exists k,
       http_count tr = S k /\
       ((exists r, transport k = Resolved r /\ result = Returned (data r))
        \/
        exists error,
          transport k = Rejected error /\
          ((status_is error 404 = true /\
            result = Thrown (Js.Error ("Endpoint not found: " ++ endpoint)))
           \/
           (status_is error 401 = true /\
            result = Thrown (Js.Error "Invalid API key"))
           \/
           (status_is error 404 = false /\ status_is error 401 = false /\
            exists cause,
              Js.to_string (apiError error) = Some cause /\
              result =
                Thrown (Js.Error ("Instantly API error after "
                                  ++ Js.Z_to_string (Z.of_nat (S k))
                                  ++ " attempts: " ++ cause)))
           \/
           (status_is error 404 = false /\ status_is error 401 = false /\
            Js.to_string (apiError error) = None /\
            result =
              Thrown (Js.TypeError
                        "Cannot convert object to primitive value"))))).
Proof.
  destruct request_ends as (result & tr & Hreq & Hrun).
  exists result, tr. split; [exact Hreq|].
  destruct (runs_head _ _ _ _ Hrun) as [[Hno ->]|[Hyes [tr' Htr]]].
  - left. repeat split; try assumption.
    inversion Hrun; subst; try congruence. reflexivity.
  - right. exists (pred (http_count tr)).
    assert (Hcount : http_count tr = S (pred (http_count tr)))
      by (rewrite Htr; reflexivity).
    split; [exact Hcount|].
    rewrite (runs_result _ _ _ _ Hrun _ Hcount).
    unfold final_result. rewrite Nat.add_0_l.
    destruct (transport (pred (http_count tr))) as [r|error]; [left; eauto|].
    right. exists error. split; [reflexivity|].
    destruct (status_is error 404) eqn:H404.
    + left. split; [reflexivity|]. now rewrite catch_not_found.
    + destruct (status_is error 401) eqn:H401.
      * right. left. split; [reflexivity|]. now rewrite catch_unauthorized.
      * right. right.
        assert (Hterm :
                  match snd (catch_block (S (pred (http_count tr))) error) with
                  | CThrow e => Thrown e
                  | _ => terminal_error (S (pred (http_count tr))) (Some error)
                  end = terminal_error (S (pred (http_count tr))) (Some error)).
        { destruct (catch_no_throw (S (pred (http_count tr))) error H404 H401)
            as [-> | ->]; reflexivity. }
        rewrite Hterm. unfold terminal_error.
        destruct (Js.to_string (apiError error)) as [cause|].
        -- left. repeat split. exists cause. split; reflexivity.
        -- right. repeat split.
Qed.

(** When the first loop test fails ([maxAttempts] is [NaN], zero or
    negative), the invocation makes no attempt, logs nothing, and ends in the
    [TypeError] of line 117. *)
Lemma no_attempt_type_error :
  attempts_remain 0 = false ->
  request =
    Some (Thrown (Js.TypeError
                    "Cannot read properties of undefined (reading 'response')"),
          []).
Proof.
  intros Hno. unfold request. rewrite iterations_budget.
  cbn [request_loop]. now rewrite Hno.
Qed.

End Request.

(** ** The bearer credential and the console *)

Lemma console_output_app stringify tr1 tr2 :
  console_output stringify (tr1 ++ tr2) =
  (console_output stringify tr1 ++ console_output stringify tr2)%list.
Proof.
  induction tr1 as [|ev tr1 IH]; simpl; [reflexivity|].
  destruct (console_line stringify ev); simpl; now rewrite IH.
Qed.

(** Two clients that differ in [apiKey] only go through the loop in step:
    same result, same console output. *)
Lemma request_loop_key_independent stringify retryConfig transport base key1 key2
  endpoint method data_arg fuel :
  forall attempt lastError,
    match request_loop retryConfig transport
            {| apiKey := key1; baseUrl := base |} endpoint method data_arg
            fuel attempt lastError,
          request_loop retryConfig transport
            {| apiKey := key2; baseUrl := base |} endpoint method data_arg
            fuel attempt lastError
    with
    | Some (r1, tr1), Some (r2, tr2) =>
        r1 = r2 /\ console_output stringify tr1 = console_output stringify tr2
    | None, None => True
    | _, _ => False
    end.
Proof.
  induction fuel as [|fuel IH]; intros attempt lastError; cbn [request_loop].
  - exact I.
  - destruct (attempts_remain retryConfig attempt); [|now split].
    destruct (transport attempt) as [r|error]; [now split|].
    change (catch_block retryConfig {| apiKey := key2; baseUrl := base |}
              endpoint method (S attempt) error)
      with (catch_block retryConfig {| apiKey := key1; baseUrl := base |}
              endpoint method (S attempt) error).
    destruct (catch_block retryConfig {| apiKey := key1; baseUrl := base |}
                endpoint method (S attempt) error) as [evs [e| |]];
      try now split.
    specialize (IH (S attempt) (Some error)).
    destruct (request_loop retryConfig transport
                {| apiKey := key1; baseUrl := base |} endpoint method data_arg
                fuel (S attempt) (Some error)) as [[r1 tr1]|];
      destruct (request_loop retryConfig transport
                  {| apiKey := key2; baseUrl := base |} endpoint method data_arg
                  fuel (S attempt) (Some error)) as [[r2 tr2]|];
      cbn [emit]; try exact IH.
    destruct IH as [-> Hout]. split; [reflexivity|].
    change (EvHttp ?r :: evs ++ ?tr)%list with ([EvHttp r] ++ evs ++ tr)%list.
    rewrite !console_output_app, Hout. reflexivity.
Qed.

(** C8. For every call, policy and sequence of attempt outcomes, two
    invocations that differ only in the API key end with the same result
    and write the same text to the console, although the key is sent with
    every HTTP attempt. *)
Theorem console_independent_of_api_key
  stringify retryConfig transport base key1 key2 endpoint method data_arg :
  exists result tr1 tr2,
    request retryConfig transport {| apiKey := key1; baseUrl := base |}
            endpoint method data_arg = Some (result, tr1) /\
    request retryConfig transport {| apiKey := key2; baseUrl := base |}
            endpoint method data_arg = Some (result, tr2) /\
    console_output stringify tr1 = console_output stringify tr2 /\
    (forall r, In (EvHttp r) tr1 ->
               In ("Authorization", "Bearer " ++ key1) (req_headers r)) /\
    (forall r, In (EvHttp r) tr2 ->
               In ("Authorization", "Bearer " ++ key2) (req_headers r)).
Proof.
  pose proof (request_loop_key_independent stringify retryConfig transport
                base key1 key2 endpoint method data_arg
                (iterations retryConfig) 0 None) as H.
  fold (request retryConfig transport {| apiKey := key1; baseUrl := base |}
          endpoint method data_arg) in H.
  fold (request retryConfig transport {| apiKey := key2; baseUrl := base |}
          endpoint method data_arg) in H.
  destruct (request_ends retryConfig transport
              {| apiKey := key1; baseUrl := base |} endpoint method data_arg)
    as (r1 & tr1 & Hreq1 & Hrun1).
  destruct (request_ends retryConfig transport
              {| apiKey := key2; baseUrl := base |} endpoint method data_arg)
    as (r2 & tr2 & Hreq2 & Hrun2).
  rewrite Hreq1, Hreq2 in H. destruct H as [<- Hout].
  exists r1, tr1, tr2. repeat split; try assumption.
  - intros r Hin. apply (runs_http_requests _ _ _ _ _ _ _ _ _ _ Hrun1) in Hin.
    subst r. simpl. auto.
  - intros r Hin. apply (runs_http_requests _ _ _ _ _ _ _ _ _ _ Hrun2) in Hin.
    subst r. simpl. auto.
Qed.

(** ** The rate-limit wait on concrete headers *)

Example retryAfter_absent :
  retryAfter {| status := 429; statusText := ""; headers := []; data := Js.Null |}
  = Js.Num 60000.
Proof. reflexivity. Qed.

Example retryAfter_empty :
  retryAfter {| status := 429; statusText := "";
                headers := [("retry-after", "")]; data := Js.Null |}
  = Js.Num 60000.
Proof. reflexivity. Qed.

Example retryAfter_seconds :
  retryAfter {| status := 429; statusText := "";
                headers := [("retry-after", "5")]; data := Js.Null |}
  = Js.Num 5000.
Proof. reflexivity. Qed.

Example retryAfter_http_date :
  retryAfter {| status := 429; statusText := "";
                headers := [("retry-after", "Wed, 21 Oct 2015 07:28:00 GMT")];
                data := Js.Null |}
  = Js.NaN.
Proof. reflexivity. Qed.

(** 429 with [retry-after: 2], then 200: the wait before the second attempt
    is 2000 ms, not the 100 ms of the backoff formula. *)
Example rate_limited_then_ok :
  exists tr,
    request quick_policy
      (scripted [answered 429 [("retry-after", "2")] Js.Null]
                (ok (Js.Object [("ok", Js.Bool true)])))
      sample_client "/campaigns" "GET" Js.Undefined
    = Some (Returned (Js.Object [("ok", Js.Bool true)]), tr) /\
    http_count tr = 2%nat /\
    sleeps tr = [Js.Num 2000].
Proof. eexists. repeat split. Qed.

(** 500, 500, then 200: three attempts and sleeps of 100 ms and 200 ms. *)
Example two_failures_then_ok :
  exists tr,
    request quick_policy
      (scripted [answered 500 [] Js.Null; answered 500 [] Js.Null]
                (ok (Js.Object [("ok", Js.Bool true)])))
      sample_client "/campaigns" "GET" Js.Undefined
    = Some (Returned (Js.Object [("ok", Js.Bool true)]), tr) /\
    http_count tr = 3%nat /\
    sleeps tr = [Js.Num 100; Js.Num 200].
Proof. eexists. repeat split. Qed.

(** C2, at a header that [parseInt] cannot read. A 429 whose [retry-after]
    is an HTTP date, with attempts remaining: line 92 computes
    [NaN * 1000], and the timer before the next attempt is set to [NaN],
    not to the 60000 ms of the default. *)
Theorem rate_limit_http_date_wait :
  exists tr,
    request default_policy
      (scripted [answered 429 [("retry-after", "Wed, 21 Oct 2015 07:28:00 GMT")]
                          Js.Null]
                (ok Js.Null))
      sample_client "/campaigns" "GET" Js.Undefined
    = Some (Returned Js.Null, tr) /\
    http_count tr = 2%nat /\
    sleeps tr = [Js.NaN] /\
    console_output (fun _ => "") tr =
      ["Instantly API Error: "; "Rate limited. Waiting NaNms before retry..."].
Proof. eexists. repeat split. Qed.

(** ** Counterexamples to the claims as worded *)

(** C4 as worded: the messages would be ["endpoint not found: /campaigns"]
    for a 404 and would contain ["invalid API key"] for a 401. The code
    capitalises both. *)
Lemma fatal_message_wording_counterexample :
  ~ (exists tr,
       request default_policy (scripted [] (answered 404 [] Js.Null))
               sample_client "/campaigns" "GET" Js.Undefined
       = Some (Thrown (Js.Error "endpoint not found: /campaigns"), tr)) /\
  ~ (exists msg tr,
       request default_policy (scripted [] (answered 401 [] Js.Null))
               sample_client "/campaigns" "GET" Js.Undefined
       = Some (Thrown (Js.Error msg), tr) /\
       contains "invalid API key" msg = true).
Proof.
  split.
  - intros [tr H]. vm_compute in H. discriminate.
  - intros (msg & tr & H & Hc). vm_compute in H.
    injection H as <- _. vm_compute in Hc. discriminate.
Qed.

(** C5 as worded: a further attempt would follow only a failure with status
    500 and above or without a response. After a 429 with [retry-after: 2]
    the code makes a second attempt. *)
Lemma retry_after_rate_limit_counterexample :
  let transport :=
    scripted [answered 429 [("retry-after", "2")] Js.Null] (ok Js.Null) in
  exists result tr,
    request default_policy transport sample_client "/campaigns" "GET"
            Js.Undefined = Some (result, tr) /\
    ~ (forall i error,
         (S i < http_count tr)%nat ->
         transport i = Rejected error ->
         retriable error = true).
Proof.
  intros transport. eexists. eexists. split; [reflexivity|].
  intros H.
  specialize (H 0%nat _ ltac:(vm_compute; lia) eq_refl).
  vm_compute in H. discriminate.
Qed.


(** C6, at a structured [error] field. Three 500 answers whose body is
    [{"error": {"code": "quota"}, "message": "Monthly quota exceeded"}]:
    the [error] field is an object, hence truthy, and the message thrown
    ends in ["[object Object]"]; neither the content of the field nor the
    readable [message] beside it is in it. And with the body
    [{"error": {"toString": 1}}] the template literal of line 118 throws
    a [TypeError] that carries neither the count nor a cause. *)
Theorem exhaustion_object_cause :
  (exists tr,
     request default_policy
       (scripted []
          (answered 500 []
             (Js.Object [("error", Js.Object [("code", Js.Str "quota")]);
                         ("message", Js.Str "Monthly quota exceeded")])))
       sample_client "/campaigns" "GET" Js.Undefined
     = Some (Thrown (Js.Error
                       "Instantly API error after 3 attempts: [object Object]"),
             tr) /\
     http_count tr = 3%nat /\
     contains "quota"
       "Instantly API error after 3 attempts: [object Object]" = false) /\
  (exists tr,
     request default_policy
       (scripted []
          (answered 500 []
             (Js.Object [("error",
                          Js.Object [("toString", Js.Number (Js.Num 1))])])))
       sample_client "/campaigns" "GET" Js.Undefined
     = Some (Thrown (Js.TypeError "Cannot convert object to primitive value"),
             tr) /\
     http_count tr = 3%nat).
Proof.
  split; eexists; repeat split.
Qed.

(** ** The theorems at sample inputs *)

(** 500, a network failure, then 400 under [quick_policy]. *)
Lemma request_attempt_bounds_witness :
  maxAttempts quick_policy = Js.Num 3 /\
  1 <= 3 /\
  exists result tr,
    request quick_policy
      (scripted [answered 500 [] Js.Null; network_failure]
                (answered 400 [] Js.Null))
      sample_client "/campaigns" "GET" Js.Undefined = Some (result, tr) /\
    (1 <= http_count tr)%nat /\
    Z.of_nat (http_count tr) <= 3 /\
    sleeps (after_last_http tr) = [].
Proof.
  split; [reflexivity|]. split; [lia|].
  destruct (request_attempt_bounds quick_policy
              (scripted [answered 500 [] Js.Null; network_failure]
                        (answered 400 [] Js.Null))
              sample_client "/campaigns" "GET" Js.Undefined 3
              eq_refl ltac:(lia))
    as (result & tr & Hreq & Hmin & Hmax & Hquiet & _).
  exists result, tr. auto.
Defined.


(** 401 on the first attempt under the default policy. *)
Lemma fatal_on_first_attempt_witness :
  exists tr,
    request default_policy (scripted [] (answered 401 [] Js.Null))
            sample_client "/campaigns" "GET" Js.Undefined
    = Some (Thrown (Js.Error "Invalid API key"), tr) /\
    http_count tr = 1%nat /\
    sleeps tr = [].
Proof.
  destruct (fatal_on_first_attempt default_policy
              (scripted [] (answered 401 [] Js.Null))
              sample_client "/campaigns" "GET" Js.Undefined 3
              _ _ eq_refl ltac:(lia) eq_refl eq_refl (or_intror eq_refl))
    as (tr & Hreq & _ & Hcount & Hsleep).
  exists tr. auto.
Defined.

(** 500, then 422: the second attempt is the last. *)
Lemma retry_only_on_transient_witness :
  exists result tr,
    request default_policy
      (scripted [answered 500 [] Js.Null] (answered 422 [] Js.Null))
      sample_client "/campaigns" "POST" (Js.Object []) = Some (result, tr) /\
    http_count tr = 2%nat /\
    (exists d, attempt_events tr 1 = Some [EvConsoleError d]).
Proof.
  destruct (retry_only_on_transient default_policy
              (scripted [answered 500 [] Js.Null] (answered 422 [] Js.Null))
              sample_client "/campaigns" "POST" (Js.Object []))
    as (result & tr & Hreq & Hall).
  exists result, tr. split; [exact Hreq|].
  assert (Hmade : (1 < http_count tr)%nat).
  { vm_compute in Hreq. injection Hreq as _ <-. vm_compute. lia. }
  destruct (Hall 1%nat _ Hmade eq_refl) as [_ Hstop].
  destruct (Hstop _ eq_refl) as (Hcount & Hev & _);
    try (vm_compute; congruence); try (simpl; lia).
  split; [exact Hcount|]. eexists. exact Hev.
Defined.

(** 503 every time, with an empty [error] field and a [message] field. *)
Lemma exhaustion_error_witness :
  exists tr,
    request default_policy
      (scripted []
         (answered 503 []
            (Js.Object [("error", Js.Str ""); ("message", Js.Str "down")])))
      sample_client "/campaigns" "GET" Js.Undefined
    = Some (Thrown (Js.Error "Instantly API error after 3 attempts: down"), tr) /\
    http_count tr = 3%nat.
Proof.
  destruct (exhaustion_error default_policy
              (scripted []
                 (answered 503 []
                    (Js.Object [("error", Js.Str ""); ("message", Js.Str "down")])))
              sample_client "/campaigns" "GET" Js.Undefined 3
              eq_refl ltac:(lia))
    as (last & tr & Hlast & Hreq & Hcount & _).
  - intros i _. destruct i as [|[|i]]; eexists;
      (split; [reflexivity | left; reflexivity]).
  - injection Hlast as <-. exists tr. split; [exact Hreq | exact Hcount].
Defined.

(** 500, 429, then 200 on the third and last allowed attempt. *)
Lemma success_on_attempt_witness :
  exists tr,
    request quick_policy
      (scripted [answered 500 [] Js.Null; answered 429 [] Js.Null]
                (ok (Js.Object [("ok", Js.Bool true)])))
      sample_client "/campaigns" "GET" Js.Undefined
    = Some (Returned (Js.Object [("ok", Js.Bool true)]), tr) /\
    http_count tr = 3%nat /\
    sleeps (after_last_http tr) = [].
Proof.
  destruct (success_on_attempt quick_policy
              (scripted [answered 500 [] Js.Null; answered 429 [] Js.Null]
                        (ok (Js.Object [("ok", Js.Bool true)])))
              sample_client "/campaigns" "GET" Js.Undefined 3 3%nat
              {| status := 200; statusText := "OK"; headers := [];
                 data := Js.Object [("ok", Js.Bool true)] |}
              eq_refl ltac:(lia) ltac:(lia))
    as (tr & Hreq & Hcount & _ & Hquiet); [| reflexivity |].
  - intros i Hi. destruct i as [|[|i]]; [| |lia]; eexists;
      (split; [reflexivity|]); [left | right]; reflexivity.
  - exists tr. auto.
Defined.

(** The default policy against [maxAttempts = 0]. *)
Lemma lastError_defined_witness :
  (exists result tr,
     request default_policy (scripted [] network_failure)
             sample_client "/campaigns" "GET" Js.Undefined = Some (result, tr) /\
     (1 <= http_count tr)%nat /\
     result <>
       Thrown (Js.TypeError
                 "Cannot read properties of undefined (reading 'response')")) /\
  (exists msg,
     request no_attempt_policy (scripted [] network_failure)
             sample_client "/campaigns" "GET" Js.Undefined
     = Some (Thrown (Js.TypeError msg), [])).
Proof.
  split.
  - destruct (lastError_defined default_policy (scripted [] network_failure)
                sample_client "/campaigns" "GET" Js.Undefined 3 eq_refl)
      as (result & tr & Hreq & Hpos & _).
    destruct (Hpos ltac:(lia)) as (Hcount & Hdefined & _).
    exists result, tr. auto.
  - destruct (lastError_defined no_attempt_policy (scripted [] network_failure)
                sample_client "/campaigns" "GET" Js.Undefined 0 eq_refl)
      as (result & tr & Hreq & _ & Hneg).
    destruct (Hneg ltac:(lia)) as [-> ->].
    eexists. exact Hreq.
Defined.

(** 429 every time under the default policy. *)
Lemma rate_limited_exhaustion_witness :
  exists tr,
    request default_policy
      (scripted [] (answered 429 [("retry-after", "1")] Js.Null))
      sample_client "/campaigns" "GET" Js.Undefined
    = Some (Thrown (Js.Error
                      "Instantly API error after 3 attempts: Request failed with status code 429"),
            tr) /\
    http_count tr = 3%nat /\
    sleeps (after_last_http tr) = [].
Proof.
  destruct (rate_limited_exhaustion default_policy
              (scripted [] (answered 429 [("retry-after", "1")] Js.Null))
              sample_client "/campaigns" "GET" Js.Undefined 3
              eq_refl ltac:(lia))
    as (last & tr & Hlast & Hreq & Hcount & Hquiet & _).
  - intros i _. destruct i as [|[|i]]; eexists; eexists;
      (split; [reflexivity | split; reflexivity]).
  - injection Hlast as <-. exists tr. auto.
Defined.

(** * The server around [request]

    The rest of src/index.ts: the configuration read from the environment
    (lines 15-33, 40-43), the methods of [InstantlyClient] (lines 121-306),
    and the handler of tool calls (lines 840-1031). *)

(** ** Configuration *)

(** [process.env]: a variable is absent or holds a string. *)
Definition Env : Type := string -> option string.

(** [process.env.NAME || fallback]: an empty value is falsy. *)
Definition env_or (env : Env) (name fallback : string) : string :=
  match env name with
  | Some v => if String.eqb v "" then fallback else v
  | None => fallback
  end.

(** Lines 28-33. *)
Definition retryConfig_of (env : Env) : RetryConfig :=
  {| maxAttempts := Js.parseInt (env_or env "INSTANTLY_RETRY_MAX_ATTEMPTS" "3");
     initialDelay := Js.parseInt (env_or env "INSTANTLY_RETRY_INITIAL_DELAY" "1000");
     maxDelay := Js.parseInt (env_or env "INSTANTLY_RETRY_MAX_DELAY" "10000");
     backoffFactor := Js.parseInt (env_or env "INSTANTLY_RETRY_BACKOFF_FACTOR" "2") |}.

(** How [getApiKey] (lines 15-22) leaves: it returns the key, or it writes
    to [console.error] and ends the process with [process.exit(code)]. *)
Inductive KeyLookup : Type :=
| KeyFound (key : string)
| ProcessExit (logged : string) (code : Z).

Definition getApiKey (env : Env) : KeyLookup :=
  match env "INSTANTLY_API_KEY" with
  | Some key =>
      if String.eqb key "" then
        ProcessExit "INSTANTLY_API_KEY environment variable is required" 1
      else KeyFound key
  | None => ProcessExit "INSTANTLY_API_KEY environment variable is required" 1
  end.

(** The constructor, lines 40-43. *)
Definition new_InstantlyClient (env : Env) (key : string) : InstantlyClient :=
  {| apiKey := key;
     baseUrl := env_or env "INSTANTLY_API_URL" "https://api.instantly.ai/api/v2" |}.

(** ** encodeURIComponent (ECMA-262, 19.2.6.5)

    The function goes through the code points of its argument: letters,
    digits and [- _ . ! ~ * ' ( )] are left as they are, any other code
    point becomes the octets of its UTF-8 form, each written [%XY], and a
    surrogate without partner makes the function throw its [URIError]. On
    the UTF-8 form of the argument that is: an unreserved byte is kept; a
    high surrogate followed by a low one gives the four octets of the code
    point of the pair; any other surrogate is the error; and every other
    byte is escaped as it is. [None] is the [URIError]. *)

(** Letters, digits and [- _ . ! ~ * ' ( )]. *)
Definition uri_unreserved (c : ascii) : bool :=
  let n := nat_of_ascii c in
  ((48 <=? n) && (n <=? 57))%nat || ((65 <=? n) && (n <=? 90))%nat
  || ((97 <=? n) && (n <=? 122))%nat
  || existsb (Ascii.eqb c)
       ["-"; "_"; "."; "!"; "~"; "*"; "'"; "("; ")"]%char.

Definition hex_digit (n : nat) : ascii :=
  nth n ["0"; "1"; "2"; "3"; "4"; "5"; "6"; "7"; "8"; "9";
         "A"; "B"; "C"; "D"; "E"; "F"]%char "0"%char.

(** [%XY] for the octet [b]. *)
Definition percent (b : nat) : string :=
  String "%" (String (hex_digit (b / 16)) (String (hex_digit (b mod 16)) "")).

(** The first two bytes of a surrogate code unit written by itself: of a
    high one, U+D800 to U+DBFF, [ED A0..AF]; of a low one, U+DC00 to
    U+DFFF, [ED B0..BF]. *)
Definition high_surrogate (c1 c2 : ascii) : bool :=
  ((nat_of_ascii c1 =? 237) && (160 <=? nat_of_ascii c2)
   && (nat_of_ascii c2 <=? 175))%nat.

Definition low_surrogate (c1 c2 : ascii) : bool :=
  ((nat_of_ascii c1 =? 237) && (176 <=? nat_of_ascii c2)
   && (nat_of_ascii c2 <=? 191))%nat.

(** [c] followed by [rest] starts a surrogate. *)
Definition starts_surrogate (c : ascii) (rest : string) : bool :=
  match rest with
  | String c2 _ => high_surrogate c c2 || low_surrogate c c2
  | EmptyString => false
  end.

(** The escaped octets of the code point of a pair: the high surrogate is
    [ED h1 h2], the low one [ED l1 l2]; each carries ten bits of the code
    point, which is [0x10000 + high bits * 0x400 + low bits]. *)
Definition pair_octets (h1 h2 l1 l2 : ascii) : string :=
  let byte (c : ascii) := Z.of_nat (nat_of_ascii c) in
  let high := (byte h1 - 160) * 64 + (byte h2 - 128) in
  let low := (byte l1 - 176) * 64 + (byte l2 - 128) in
  let cp := 65536 + high * 1024 + low in
  let octet (b : Z) := percent (Z.to_nat b) in
  octet (240 + cp / 262144)
  ++ octet (128 + (cp / 4096) mod 64)
  ++ octet (128 + (cp / 64) mod 64)
  ++ octet (128 + cp mod 64).

Fixpoint encodeURIComponent (s : string) : option string :=
  match s with
  | EmptyString => Some ""
  | String c1 s1 =>
      if uri_unreserved c1 then
        option_map (String c1) (encodeURIComponent s1)
      else if starts_surrogate c1 s1 then
        match s1 with
        | String h1 (String h2 (String c4 (String l1 (String l2 s6)))) =>
            if high_surrogate c1 h1 && low_surrogate c4 l1 then
              option_map (append (pair_octets h1 h2 l1 l2))
                         (encodeURIComponent s6)
            else None
        | _ => None
        end
      else
        option_map (append (percent (nat_of_ascii c1)))
                   (encodeURIComponent s1)
  end.

(** ** The methods of [InstantlyClient]

    Each method builds its endpoint and makes one call
    [this.request(endpoint, method, data)] ([method] defaults to GET,
    [data] to [undefined]). A template literal applies ToString to what it
    interpolates, and so does [encodeURIComponent] to its argument; when
    that conversion or [encodeURIComponent] throws, the method throws
    before [request] is called.
    A method is modelled by what it prepares: the three arguments it
    passes, or the error it throws instead. *)

Record Call : Type := {
  call_endpoint : string;
  call_method : string;
  call_data : Js.val
}.

Inductive Prepared : Type :=
| Calls (c : Call)
| Throws (e : Js.error).

(** The one interpolation of a method: [v] converted to a string and put
    into the endpoint. *)
Definition interpolate (v : Js.val) (call : string -> Call) : Prepared :=
  match Js.to_string v with
  | Some s => Calls (call s)
  | None => Throws (Js.TypeError "Cannot convert object to primitive value")
  end.

(** The interpolation of [encodeURIComponent(v)]. *)
Definition interpolate_encoded (v : Js.val) (call : string -> Call)
  : Prepared :=
  match Js.to_string v with
  | Some s =>
      match encodeURIComponent s with
      | Some segment => Calls (call segment)
      | None => Throws (Js.URIError "URI malformed")
      end
  | None => Throws (Js.TypeError "Cannot convert object to primitive value")
  end.

Definition getWarmupAnalytics (emails : Js.val) : Prepared :=
  Calls {| call_endpoint := "/accounts/warmup-analytics";
           call_method := "POST";
           call_data := Js.Object [("emails", emails)] |}.

Definition testAccountVitals (accounts : Js.val) : Prepared :=
  Calls {| call_endpoint := "/accounts/test/vitals";
           call_method := "POST";
           call_data := Js.Object [("accounts", accounts)] |}.

Definition getCampaignAnalytics (params : Js.val) : Prepared :=
  Calls {| call_endpoint := "/campaigns/analytics";
           call_method := "GET";
           call_data := params |}.

Definition getCampaignAnalyticsOverview (params : Js.val) : Prepared :=
  Calls {| call_endpoint := "/campaigns/analytics/overview";
           call_method := "GET";
           call_data := params |}.

Definition getDailyCampaignAnalytics (params : Js.val) : Prepared :=
  Calls {| call_endpoint := "/campaigns/analytics/daily";
           call_method := "GET";
           call_data := params |}.

Definition getCampaignStepsAnalytics (params : Js.val) : Prepared :=
  Calls {| call_endpoint := "/campaigns/analytics/steps";
           call_method := "GET";
           call_data := params |}.

Definition createAccount (data : Js.val) : Prepared :=
  Calls {| call_endpoint := "/accounts";
           call_method := "POST";
           call_data := data |}.

Definition listAccounts (params : Js.val) : Prepared :=
  Calls {| call_endpoint := "/accounts";
           call_method := "GET";
           call_data := params |}.

Definition getAccount (email : Js.val) : Prepared :=
  interpolate_encoded email (fun s =>
    {| call_endpoint := "/accounts/" ++ s;
       call_method := "GET";
       call_data := Js.Undefined |}).

Definition updateAccount (email : Js.val) (data : Js.val) : Prepared :=
  interpolate_encoded email (fun s =>
    {| call_endpoint := "/accounts/" ++ s;
       call_method := "PATCH";
       call_data := data |}).

Definition deleteAccount (email : Js.val) : Prepared :=
  interpolate_encoded email (fun s =>
    {| call_endpoint := "/accounts/" ++ s;
       call_method := "DELETE";
       call_data := Js.Undefined |}).

Definition pauseAccount (email : Js.val) : Prepared :=
  interpolate_encoded email (fun s =>
    {| call_endpoint := "/accounts/" ++ s ++ "/pause";
       call_method := "POST";
       call_data := Js.Undefined |}).

Definition resumeAccount (email : Js.val) : Prepared :=
  interpolate_encoded email (fun s =>
    {| call_endpoint := "/accounts/" ++ s ++ "/resume";
       call_method := "POST";
       call_data := Js.Undefined |}).

Definition markAccountFixed (email : Js.val) : Prepared :=
  interpolate_encoded email (fun s =>
    {| call_endpoint := "/accounts/" ++ s ++ "/mark-fixed";
       call_method := "POST";
       call_data := Js.Undefined |}).

Definition getCustomTrackingDomainStatus (host : Js.val) : Prepared :=
  Calls {| call_endpoint := "/accounts/ctd/status";
           call_method := "GET";
           call_data := Js.Object [("host", host)] |}.

Definition createCampaign (data : Js.val) : Prepared :=
  Calls {| call_endpoint := "/campaigns";
           call_method := "POST";
           call_data := data |}.

Definition listCampaigns (params : Js.val) : Prepared :=
  Calls {| call_endpoint := "/campaigns";
           call_method := "GET";
           call_data := params |}.

Definition activateCampaign (id : Js.val) : Prepared :=
  interpolate id (fun s =>
    {| call_endpoint := "/campaigns/" ++ s ++ "/activate";
       call_method := "POST";
       call_data := Js.Undefined |}).

Definition pauseCampaign (id : Js.val) : Prepared :=
  interpolate id (fun s =>
    {| call_endpoint := "/campaigns/" ++ s ++ "/pause";
       call_method := "POST";
       call_data := Js.Undefined |}).

Definition getCampaign (id : Js.val) : Prepared :=
  interpolate id (fun s =>
    {| call_endpoint := "/campaigns/" ++ s;
       call_method := "GET";
       call_data := Js.Undefined |}).

Definition updateCampaign (id : Js.val) (data : Js.val) : Prepared :=
  interpolate id (fun s =>
    {| call_endpoint := "/campaigns/" ++ s;
       call_method := "PATCH";
       call_data := data |}).

Definition deleteCampaign (id : Js.val) : Prepared :=
  interpolate id (fun s =>
    {| call_endpoint := "/campaigns/" ++ s;
       call_method := "DELETE";
       call_data := Js.Undefined |}).

Definition shareCampaign (id : Js.val) : Prepared :=
  interpolate id (fun s =>
    {| call_endpoint := "/campaigns/" ++ s ++ "/share";
       call_method := "POST";
       call_data := Js.Undefined |}).

Definition replyToEmail (data : Js.val) : Prepared :=
  Calls {| call_endpoint := "/emails/reply";
           call_method := "POST";
           call_data := data |}.

Definition listEmails (params : Js.val) : Prepared :=
  Calls {| call_endpoint := "/emails";
           call_method := "GET";
           call_data := params |}.

Definition getEmail (id : Js.val) : Prepared :=
  interpolate id (fun s =>
    {| call_endpoint := "/emails/" ++ s;
       call_method := "GET";
       call_data := Js.Undefined |}).

Definition updateEmail (id : Js.val) (data : Js.val) : Prepared :=
  interpolate id (fun s =>
    {| call_endpoint := "/emails/" ++ s;
       call_method := "PATCH";
       call_data := data |}).

Definition deleteEmail (id : Js.val) : Prepared :=
  interpolate id (fun s =>
    {| call_endpoint := "/emails/" ++ s;
       call_method := "DELETE";
       call_data := Js.Undefined |}).

Definition countUnreadEmails : Prepared :=
  Calls {| call_endpoint := "/emails/unread/count";
           call_method := "GET";
           call_data := Js.Undefined |}.

Definition markThreadAsRead (threadId : Js.val) : Prepared :=
  interpolate threadId (fun s =>
    {| call_endpoint := "/emails/threads/" ++ s ++ "/mark-as-read";
       call_method := "POST";
       call_data := Js.Undefined |}).

Definition verifyEmail (email : Js.val) : Prepared :=
  Calls {| call_endpoint := "/email-verification";
           call_method := "POST";
           call_data := Js.Object [("email", email)] |}.

Definition getEmailVerification (email : Js.val) : Prepared :=
  interpolate_encoded email (fun s =>
    {| call_endpoint := "/email-verification/" ++ s;
       call_method := "GET";
       call_data := Js.Undefined |}).

Definition createLead (data : Js.val) : Prepared :=
  Calls {| call_endpoint := "/leads";
           call_method := "POST";
           call_data := data |}.

Definition listLeads (data : Js.val) : Prepared :=
  Calls {| call_endpoint := "/leads/list";
           call_method := "POST";
           call_data := data |}.

Definition getLead (id : Js.val) : Prepared :=
  interpolate id (fun s =>
    {| call_endpoint := "/leads/" ++ s;
       call_method := "GET";
       call_data := Js.Undefined |}).

Definition updateLead (id : Js.val) (data : Js.val) : Prepared :=
  interpolate id (fun s =>
    {| call_endpoint := "/leads/" ++ s;
       call_method := "PATCH";
       call_data := data |}).

Definition deleteLead (id : Js.val) : Prepared :=
  interpolate id (fun s =>
    {| call_endpoint := "/leads/" ++ s;
       call_method := "DELETE";
       call_data := Js.Undefined |}).

Definition mergeLeads (data : Js.val) : Prepared :=
  Calls {| call_endpoint := "/leads/merge";
           call_method := "POST";
           call_data := data |}.

Definition updateLeadInterestStatus (data : Js.val) : Prepared :=
  Calls {| call_endpoint := "/leads/update-interest-status";
           call_method := "POST";
           call_data := data |}.

Definition removeLeadFromSubsequence (data : Js.val) : Prepared :=
  Calls {| call_endpoint := "/leads/subsequence/remove";
           call_method := "POST";
           call_data := data |}.

Definition createLeadList (data : Js.val) : Prepared :=
  Calls {| call_endpoint := "/lead-lists";
           call_method := "POST";
           call_data := data |}.

Definition listLeadLists (params : Js.val) : Prepared :=
  Calls {| call_endpoint := "/lead-lists";
           call_method := "GET";
           call_data := params |}.

Definition getLeadList (id : Js.val) : Prepared :=
  interpolate id (fun s =>
    {| call_endpoint := "/lead-lists/" ++ s;
       call_method := "GET";
       call_data := Js.Undefined |}).

Definition updateLeadList (id : Js.val) (data : Js.val) : Prepared :=
  interpolate id (fun s =>
    {| call_endpoint := "/lead-lists/" ++ s;
       call_method := "PATCH";
       call_data := data |}).

Definition deleteLeadList (id : Js.val) : Prepared :=
  interpolate id (fun s =>
    {| call_endpoint := "/lead-lists/" ++ s;
       call_method := "DELETE";
       call_data := Js.Undefined |}).

(** ** The tools *)

(** [const { key: _, ...rest } = params]: the own properties but [key]. *)
Definition omit (key : string) (fields : list (string * Js.val))
  : list (string * Js.val) :=
  filter (fun kv => negb (String.eqb key (fst kv))) fields.

(** The keys of [toolSchemas] (lines 324-827), in order: the names the
    ListTools handler (lines 830-838) answers with. *)
Definition tool_names : list string :=
  ["get_warmup_analytics"; "test_account_vitals"; "get_campaign_analytics";
   "get_campaign_analytics_overview"; "get_daily_campaign_analytics";
   "get_campaign_steps_analytics"; "create_account"; "list_accounts";
   "get_account"; "update_account"; "delete_account"; "pause_account";
   "resume_account"; "mark_account_fixed"; "get_tracking_domain_status";
   "create_campaign"; "list_campaigns"; "activate_campaign";
   "pause_campaign"; "get_campaign"; "update_campaign"; "delete_campaign";
   "share_campaign"; "reply_to_email"; "list_emails"; "get_email";
   "update_email"; "delete_email"; "count_unread_emails";
   "mark_thread_as_read"; "verify_email"; "get_email_verification";
   "create_lead"; "list_leads"; "get_lead"; "update_lead"; "delete_lead";
   "merge_leads"; "update_lead_interest_status"; "create_lead_list";
   "list_lead_lists"; "get_lead_list"; "update_lead_list";
   "delete_lead_list"].

(** The cases of the [switch] (lines 856-1007): for each tool name, the
    client method it calls on the arguments [params] of the call. *)
Definition tool_cases : list (string * (list (string * Js.val) -> Prepared)) :=
  [
   ("get_warmup_analytics", fun params => getWarmupAnalytics (Js.lookup "emails" params));
   ("test_account_vitals", fun params => testAccountVitals (Js.lookup "accounts" params));
   ("get_campaign_analytics", fun params => getCampaignAnalytics (Js.Object params));
   ("get_campaign_analytics_overview", fun params => getCampaignAnalyticsOverview (Js.Object params));
   ("get_daily_campaign_analytics", fun params => getDailyCampaignAnalytics (Js.Object params));
   ("get_campaign_steps_analytics", fun params => getCampaignStepsAnalytics (Js.Object params));
   ("create_account", fun params => createAccount (Js.Object params));
   ("list_accounts", fun params => listAccounts (Js.Object params));
   ("get_account", fun params => getAccount (Js.lookup "email" params));
   ("update_account", fun params =>
      let updateEmail := Js.lookup "email" params in
      let updateData := Js.Object (omit "email" params) in
      updateAccount updateEmail updateData);
   ("delete_account", fun params => deleteAccount (Js.lookup "email" params));
   ("pause_account", fun params => pauseAccount (Js.lookup "email" params));
   ("resume_account", fun params => resumeAccount (Js.lookup "email" params));
   ("mark_account_fixed", fun params => markAccountFixed (Js.lookup "email" params));
   ("get_tracking_domain_status", fun params => getCustomTrackingDomainStatus (Js.lookup "host" params));
   ("create_campaign", fun params => createCampaign (Js.Object params));
   ("list_campaigns", fun params => listCampaigns (Js.Object params));
   ("activate_campaign", fun params => activateCampaign (Js.lookup "id" params));
   ("pause_campaign", fun params => pauseCampaign (Js.lookup "id" params));
   ("get_campaign", fun params => getCampaign (Js.lookup "id" params));
   ("update_campaign", fun params =>
      let campaignId := Js.lookup "id" params in
      let campaignData := Js.Object (omit "id" params) in
      updateCampaign campaignId campaignData);
   ("delete_campaign", fun params => deleteCampaign (Js.lookup "id" params));
   ("share_campaign", fun params => shareCampaign (Js.lookup "id" params));
   ("reply_to_email", fun params => replyToEmail (Js.Object params));
   ("list_emails", fun params => listEmails (Js.Object params));
   ("get_email", fun params => getEmail (Js.lookup "id" params));
   ("update_email", fun params =>
      let emailId := Js.lookup "id" params in
      let emailData := Js.Object (omit "id" params) in
      updateEmail emailId emailData);
   ("delete_email", fun params => deleteEmail (Js.lookup "id" params));
   ("count_unread_emails", fun _ => countUnreadEmails);
   ("mark_thread_as_read", fun params => markThreadAsRead (Js.lookup "thread_id" params));
   ("verify_email", fun params => verifyEmail (Js.lookup "email" params));
   ("get_email_verification", fun params => getEmailVerification (Js.lookup "email" params));
   ("create_lead", fun params => createLead (Js.Object params));
   ("list_leads", fun params => listLeads (Js.Object params));
   ("get_lead", fun params => getLead (Js.lookup "id" params));
   ("update_lead", fun params =>
      let leadId := Js.lookup "id" params in
      let leadData := Js.Object (omit "id" params) in
      updateLead leadId leadData);
   ("delete_lead", fun params => deleteLead (Js.lookup "id" params));
   ("merge_leads", fun params => mergeLeads (Js.Object params));
   ("update_lead_interest_status", fun params => updateLeadInterestStatus (Js.Object params));
   ("create_lead_list", fun params => createLeadList (Js.Object params));
   ("list_lead_lists", fun params => listLeadLists (Js.Object params));
   ("get_lead_list", fun params => getLeadList (Js.lookup "id" params));
   ("update_lead_list", fun params =>
      let listId := Js.lookup "id" params in
      let listData := Js.Object (omit "id" params) in
      updateLeadList listId listData);
   ("delete_lead_list", fun params => deleteLeadList (Js.lookup "id" params))
  ].

(** [switch (name)]: the first case whose label is [name]; [None] is the
    [default] branch. *)
Fixpoint find_case (name : string)
  (cases : list (string * (list (string * Js.val) -> Prepared)))
  : option (list (string * Js.val) -> Prepared) :=
  match cases with
  | [] => None
  | (label, body) :: rest =>
      if String.eqb name label then Some body else find_case name rest
  end.

(** [error.message] *)
Definition error_message (e : Js.error) : string :=
  match e with
  | Js.Error msg => msg
  | Js.TypeError msg => msg
  | Js.URIError msg => msg
  end.

(** What the CallTool handler answers: one text item, which is
    [JSON.stringify(result, null, 2)] for [ReplyResult result] and
    ["Error: " ++ message] for [ReplyError message]. *)
Inductive Reply : Type :=
| ReplyResult (result : Js.val)
| ReplyError (message : string).

Section Server.

Variable env : Env.
Variable transport : nat -> Outcome.

(** The constant [INSTANTLY_API_KEY] (line 25). *)
Variable INSTANTLY_API_KEY : string.

(** One call of a client method: the invocation of [request] it makes. *)
Definition perform (client : InstantlyClient) (c : Call)
  : option (Result * list Event) :=
  request (retryConfig_of env) transport client
          (call_endpoint c) (call_method c) (call_data c).

(** The CallTool handler, lines 841-1031. The SDK has validated the
    request, so [name] is a string and [arguments] is absent or an object.
    Whatever is thrown inside the [try], by the handler, by the client
    method or by [request], becomes the text of the reply. [None] is the
    fuel of [request] running out. *)
Definition call_tool (name : string) (args : option (list (string * Js.val)))
  : option (Reply * list Event) :=
  let client := new_InstantlyClient env INSTANTLY_API_KEY in
  match args with
  | None => Some (ReplyError "No arguments provided", [])
  | Some params =>
      match find_case name tool_cases with
      | None => Some (ReplyError ("Unknown tool: " ++ name), [])
      | Some body =>
          match body params with
          | Throws e => Some (ReplyError (error_message e), [])
          | Calls c =>
              match perform client c with
              | Some (Returned result, tr) => Some (ReplyResult result, tr)
              | Some (Thrown e, tr) => Some (ReplyError (error_message e), tr)
              | None => None
              end
          end
      end
  end.

End Server.

(** ** Sample environments, for the examples *)

Definition no_env : Env := fun _ => None.

(** [env] with [name] set to [value]. *)
Definition env_set (env : Env) (name value : string) : Env :=
  fun n => if String.eqb n name then Some value else env n.

(** The environment that sets [name] to [value] and nothing else. *)
Definition env_with (name value : string) : Env := env_set no_env name value.

(** The string of the given bytes. *)
Definition bytes (l : list Z) : string :=
  string_of_list_ascii (map (fun b => ascii_of_nat (Z.to_nat b)) l).

(** A surrogate without partner, U+D800. *)
Definition lone_surrogate : string := bytes [237; 160; 128].

(** ** Properties of the configuration *)

Lemma find_case_In name cases body :
  find_case name cases = Some body -> In (name, body) cases.
Proof.
  induction cases as [|[label b] cases IH]; simpl; [discriminate|].
  destruct (String.eqb_spec name label) as [->|_].
  - intros [= ->]. now left.
  - intros H. right. now apply IH.
Qed.

Lemma find_case_names name cases :
  In name (map fst cases) <-> exists body, find_case name cases = Some body.
Proof.
  induction cases as [|[label b] cases IH]; simpl.
  - split; [tauto | intros [body H]; discriminate].
  - destruct (String.eqb_spec name label) as [->|Hne].
    + split; eauto.
    + rewrite <- IH. split; [intros [H|H]; congruence || exact H | tauto].
Qed.

(** The names listed and the names handled are the same, in the same
    order. *)
Lemma tool_cases_names : map fst tool_cases = tool_names.
Proof. reflexivity. Qed.

Lemma find_case_names_listed name :
  In name tool_names <-> exists body, find_case name tool_cases = Some body.
Proof.
  rewrite <- tool_cases_names. apply find_case_names.
Qed.

Ltac unfold_methods :=
  unfold getAccount, updateAccount, deleteAccount, pauseAccount,
    resumeAccount, markAccountFixed, getEmailVerification, activateCampaign,
    pauseCampaign, getCampaign, updateCampaign, deleteCampaign,
    shareCampaign, getEmail, updateEmail, deleteEmail, markThreadAsRead,
    getLead, updateLead, deleteLead, getLeadList, updateLeadList,
    deleteLeadList, interpolate, interpolate_encoded.

(** Case analysis on the conversions a method makes. *)
Ltac method_cases :=
  unfold_methods;
  repeat match goal with
         | |- context [match Js.to_string ?v with _ => _ end] =>
             destruct (Js.to_string v)
         | |- context [match encodeURIComponent ?s with _ => _ end] =>
             destruct (encodeURIComponent s)
         end.

(** A client method throws by itself only the [TypeError] of a failed
    string conversion and the [URIError] of [encodeURIComponent]. *)
Lemma prepared_throws name body params e :
  find_case name tool_cases = Some body ->
  body params = Throws e ->
  e = Js.TypeError "Cannot convert object to primitive value" \/
  e = Js.URIError "URI malformed".
Proof.
  intros Hbody. apply find_case_In in Hbody. revert params e.
  assert (Hall : Forall (fun entry =>
                           forall params e,
                             snd entry params = Throws e ->
                             e = Js.TypeError
                                   "Cannot convert object to primitive value"
                             \/ e = Js.URIError "URI malformed")
                        tool_cases).
  { unfold tool_cases.
    repeat (constructor;
            [intros params e; cbn [snd];
             first [ discriminate
                   | method_cases;
                     first [ discriminate
                           | intros [= <-]; auto ] ]|]).
    constructor. }
  rewrite Forall_forall in Hall. exact (Hall _ Hbody).
Qed.

(** X5. If [INSTANTLY_RETRY_MAX_ATTEMPTS] does not parse to a positive
    integer (it reads as [NaN], zero or a negative number), no call of a
    listed tool makes an HTTP attempt: when the client method reaches
    [request], the reply is the [TypeError] text of line 117, and when the
    method throws while it builds its endpoint, the reply is that error. *)
Theorem unusable_max_attempts_disables_tools env transport key name params :
  Js.lt (Js.Num 0)
        (Js.parseInt (env_or env "INSTANTLY_RETRY_MAX_ATTEMPTS" "3")) = false ->
  In name tool_names ->
  exists body,
    find_case name tool_cases = Some body /\
    call_tool env transport key name (Some params) =
      Some (ReplyError
              match body params with
              | Calls _ =>
                  "Cannot read properties of undefined (reading 'response')"
              | Throws e => error_message e
              end, []).
Proof.
  intros Hno Hin.
  apply find_case_names_listed in Hin as [body Hbody].
  exists body. split; [exact Hbody|].
  unfold call_tool, perform. rewrite Hbody.
  destruct (body params) as [c|e]; [|reflexivity].
  rewrite no_attempt_type_error; [reflexivity|exact Hno].
Qed.

(** X6. With none of the four retry variables set (absent or empty), the
    policy is the default one: a call of a listed tool whose client method
    reaches [request] is answered after at least one and at most three
    HTTP attempts (and after none when the method throws while it builds
    its endpoint). *)
Theorem default_policy_bounds_tool_calls env transport key name params :
  (forall v, In v ["INSTANTLY_RETRY_MAX_ATTEMPTS";
                   "INSTANTLY_RETRY_INITIAL_DELAY";
                   "INSTANTLY_RETRY_MAX_DELAY";
                   "INSTANTLY_RETRY_BACKOFF_FACTOR"] ->
             env v = None \/ env v = Some "") ->
  In name tool_names ->
  retryConfig_of env = default_policy /\
  exists body reply tr,
    find_case name tool_cases = Some body /\
    call_tool env transport key name (Some params) = Some (reply, tr) /\
    match body params with
    | Calls _ => (1 <= http_count tr <= 3)%nat
    | Throws e => tr = [] /\ reply = ReplyError (error_message e)
    end.
Proof.
  intros Hunset Hin.
  assert (Hcfg : retryConfig_of env = default_policy).
  { unfold retryConfig_of, env_or.
    destruct (Hunset "INSTANTLY_RETRY_MAX_ATTEMPTS") as [-> | ->];
      [simpl; tauto| |];
      destruct (Hunset "INSTANTLY_RETRY_INITIAL_DELAY") as [-> | ->];
      try (simpl; tauto);
      destruct (Hunset "INSTANTLY_RETRY_MAX_DELAY") as [-> | ->];
      try (simpl; tauto);
      destruct (Hunset "INSTANTLY_RETRY_BACKOFF_FACTOR") as [-> | ->];
      try (simpl; tauto); reflexivity. }
  split; [exact Hcfg|].
  apply find_case_names_listed in Hin as [body Hbody].
  exists body. unfold call_tool, perform. rewrite Hbody, Hcfg.
  destruct (body params) as [c|e]; [|eauto 6].
  destruct (request_ends default_policy transport
              (new_InstantlyClient env key)
              (call_endpoint c) (call_method c) (call_data c))
    as (result & tr & -> & Hrun).
  assert (Hcount : (1 <= http_count tr <= 3)%nat).
  { split.
    - apply (runs_http_pos _ _ _ _ _ _ _ _ _ _ Hrun). reflexivity.
    - pose proof (runs_http_count _ _ _ _ _ _ _ _ _ _ Hrun) as Hle.
      rewrite (budget_num default_policy 3 eq_refl) in Hle.
      simpl in Hle. lia. }
  destruct result; eauto 6.
Qed.

(** ** Properties of the tool handler *)

(** X7. The tools advertised and the tools handled coincide: a name is a
    key of [toolSchemas] exactly when the [switch] of the CallTool handler
    has a case for it (44 names, in the same order). *)
Theorem listed_tools_are_handled :
  map fst tool_cases = tool_names /\
  List.length tool_names = 44%nat /\
  forall name,
    In name tool_names <-> exists body, find_case name tool_cases = Some body.
Proof.
  split; [reflexivity|]. split; [reflexivity|].
  intros name. rewrite <- tool_cases_names. apply find_case_names.
Qed.

(** X8. A call is turned down without any HTTP attempt in three cases:
    without arguments, whatever the name (even for a tool that takes none),
    with ["No arguments provided"]; with arguments but a name that is not
    listed, with ["Unknown tool: <name>"]; and when the client method
    throws while it builds its endpoint, which it does only with the
    [TypeError] of a failed string conversion or the [URIError] of
    [encodeURIComponent], with that error's message. Every other call
    makes at least one attempt when the policy allows one. *)
Theorem call_tool_rejections env transport key name :
  call_tool env transport key name None =
    Some (ReplyError "No arguments provided", []) /\
  (forall params,
     ~ In name tool_names ->
     call_tool env transport key name (Some params) =
       Some (ReplyError ("Unknown tool: " ++ name), [])) /\
  (forall params body e,
     find_case name tool_cases = Some body ->
     body params = Throws e ->
     (e = Js.TypeError "Cannot convert object to primitive value" \/
      e = Js.URIError "URI malformed") /\
     call_tool env transport key name (Some params) =
       Some (ReplyError (error_message e), [])) /\
  (forall params body c m,
     find_case name tool_cases = Some body ->
     body params = Calls c ->
     maxAttempts (retryConfig_of env) = Js.Num m ->
     1 <= m ->
     exists reply tr,
       call_tool env transport key name (Some params) = Some (reply, tr) /\
       (1 <= http_count tr)%nat).
Proof.
  split; [reflexivity|]. split; [|split].
  - intros params Hnot. unfold call_tool.
    destruct (find_case name tool_cases) as [body|] eqn:Hbody; [|reflexivity].
    exfalso. apply Hnot. apply find_case_names_listed. eauto.
  - intros params body e Hbody Hthrows.
    split; [exact (prepared_throws _ _ _ _ Hbody Hthrows)|].
    unfold call_tool. now rewrite Hbody, Hthrows.
  - intros params body c m Hbody Hcalls Hm Hpos.
    unfold call_tool, perform. rewrite Hbody, Hcalls.
    destruct (request_ends (retryConfig_of env) transport
                (new_InstantlyClient env key)
                (call_endpoint c) (call_method c) (call_data c))
      as (result & tr & -> & Hrun).
    assert (Hcount : (1 <= http_count tr)%nat).
    { apply (runs_http_pos _ _ _ _ _ _ _ _ _ _ Hrun).
      apply (attempts_remain_iff _ _ m Hm). lia. }
    destruct result; eauto.
Qed.

(** X9. A call of a listed tool with arguments whose client method does
    not throw is one invocation of [request]: every HTTP attempt it makes
    hands axios the base URL ([INSTANTLY_API_URL], or
    https://api.instantly.ai/api/v2 when that is absent or empty) followed
    by the endpoint of the tool, with the tool's method and the bearer
    key; there are at most [maxAttempts] attempts; and the reply is the
    returned data, or the message of the error thrown by [request]. When
    the method throws, [request] is not invoked and the reply is the
    message of what it threw. *)
Theorem call_tool_is_one_request env transport key name params :
  In name tool_names ->
  exists body,
    find_case name tool_cases = Some body /\
    match body params with
    | Throws e =>
        call_tool env transport key name (Some params) =
          Some (ReplyError (error_message e), [])
    | Calls c =>
        exists result reply tr,
          request (retryConfig_of env) transport (new_InstantlyClient env key)
                  (call_endpoint c) (call_method c) (call_data c)
            = Some (result, tr) /\
          call_tool env transport key name (Some params) = Some (reply, tr) /\
          reply = match result with
                  | Returned v => ReplyResult v
                  | Thrown e => ReplyError (error_message e)
                  end /\
          (forall r, In (EvHttp r) tr ->
             req_url r = env_or env "INSTANTLY_API_URL"
                                "https://api.instantly.ai/api/v2"
                         ++ call_endpoint c /\
             req_method r = call_method c /\
             In ("Authorization", "Bearer " ++ key) (req_headers r)) /\
          (forall m, maxAttempts (retryConfig_of env) = Js.Num m -> 0 <= m ->
                     Z.of_nat (http_count tr) <= m)
    end.
Proof.
  intros Hin. apply find_case_names_listed in Hin as [body Hbody].
  exists body. split; [exact Hbody|].
  destruct (body params) as [c|e] eqn:Hprep.
  - destruct (request_ends (retryConfig_of env) transport
                (new_InstantlyClient env key)
                (call_endpoint c) (call_method c) (call_data c))
      as (result & tr & Hreq & Hrun).
    exists result,
      (match result with
       | Returned v => ReplyResult v
       | Thrown e => ReplyError (error_message e)
       end), tr.
    split; [exact Hreq|]. split; [|split; [reflexivity|split]].
    + unfold call_tool, perform. rewrite Hbody, Hprep, Hreq. now destruct result.
    + intros r Hr.
      rewrite (runs_http_requests _ _ _ _ _ _ _ _ _ _ Hrun r Hr).
      simpl. auto.
    + intros m Hm Hpos.
      pose proof (runs_http_count _ _ _ _ _ _ _ _ _ _ Hrun) as Hle.
      rewrite (budget_num _ m Hm) in Hle. specialize (Hle ltac:(lia)).
      simpl in Hle. lia.
  - unfold call_tool. now rewrite Hbody, Hprep.
Qed.

(** X10. Whatever the arguments, the request a tool call hands to
    [request] is well formed: its endpoint starts with a slash and its
    method is one of GET, POST, PATCH and DELETE. *)
Theorem tool_calls_well_formed name body params c :
  find_case name tool_cases = Some body ->
  body params = Calls c ->
  String.prefix "/" (call_endpoint c) = true /\
  In (call_method c) ["GET"; "POST"; "PATCH"; "DELETE"].
Proof.
  intros Hbody. apply find_case_In in Hbody.
  revert params c.
  assert (Hall : Forall (fun entry =>
                           forall params c,
                             snd entry params = Calls c ->
                             String.prefix "/" (call_endpoint c) = true /\
                             In (call_method c)
                                ["GET"; "POST"; "PATCH"; "DELETE"])
                        tool_cases).
  { unfold tool_cases.
    repeat (constructor;
            [intros params c; cbn [snd];
             first [ intros [= <-]; split; [reflexivity | simpl; tauto]
                   | method_cases;
                     first [ discriminate
                           | intros [= <-]; split;
                             [reflexivity | simpl; tauto] ] ]|]).
    constructor. }
  rewrite Forall_forall in Hall. exact (Hall _ Hbody).
Qed.

(** ** Properties of the endpoints *)

Lemma list_ascii_of_string_app a b :
  list_ascii_of_string (a ++ b) =
  (list_ascii_of_string a ++ list_ascii_of_string b)%list.
Proof.
  induction a as [|c a IH]; simpl; [reflexivity|]. now rewrite IH.
Qed.

Lemma hex_digit_unreserved n : uri_unreserved (hex_digit n) = true.
Proof.
  do 16 (destruct n as [|n]; [reflexivity|]). destruct n; reflexivity.
Qed.

Lemma percent_chars b c :
  In c (list_ascii_of_string (percent b)) ->
  uri_unreserved c = true \/ c = "%"%char.
Proof.
  unfold percent. simpl.
  intros [<-|[<-|[<-|[]]]]; auto using hex_digit_unreserved.
Qed.

Lemma pair_octets_chars h1 h2 l1 l2 c :
  In c (list_ascii_of_string (pair_octets h1 h2 l1 l2)) ->
  uri_unreserved c = true \/ c = "%"%char.
Proof.
  unfold pair_octets. cbv zeta.
  rewrite !list_ascii_of_string_app. intros Hin.
  repeat (apply in_app_or in Hin as [Hin|Hin];
          [eapply percent_chars; eassumption|]).
  eapply percent_chars; eassumption.
Qed.

Lemma encodeURIComponent_cons c1 s1 :
  encodeURIComponent (String c1 s1) =
  if uri_unreserved c1 then
    option_map (String c1) (encodeURIComponent s1)
  else if starts_surrogate c1 s1 then
    match s1 with
    | String h1 (String h2 (String c4 (String l1 (String l2 s6)))) =>
        if high_surrogate c1 h1 && low_surrogate c4 l1 then
          option_map (append (pair_octets h1 h2 l1 l2))
                     (encodeURIComponent s6)
        else None
    | _ => None
    end
  else
    option_map (append (percent (nat_of_ascii c1)))
               (encodeURIComponent s1).
Proof. reflexivity. Qed.

Lemma encodeURIComponent_chars_bounded n :
  forall s out c,
    (String.length s <= n)%nat ->
    encodeURIComponent s = Some out ->
    In c (list_ascii_of_string out) ->
    uri_unreserved c = true \/ c = "%"%char.
Proof.
  induction n as [|n IH]; intros s out c Hlen.
  - destruct s; [|simpl in Hlen; lia]. intros [= <-] [].
  - destruct s as [|c1 s1]; [intros [= <-] []|].
    simpl in Hlen. rewrite encodeURIComponent_cons.
    destruct (uri_unreserved c1) eqn:Hu.
    + destruct (encodeURIComponent s1) as [out'|] eqn:Hrest; [|discriminate].
      intros [= <-]. simpl. intros [<-|Hin]; [now left|].
      apply (IH s1 out' c); [lia | exact Hrest | exact Hin].
    + destruct (starts_surrogate c1 s1).
      * destruct s1 as [|h1 [|h2 [|c4 [|l1 [|l2 s6]]]]]; try discriminate.
        destruct (high_surrogate c1 h1 && low_surrogate c4 l1);
          [|discriminate].
        destruct (encodeURIComponent s6) as [out'|] eqn:Hrest;
          [|discriminate].
        cbn [option_map]. intros Heq.
        assert (Hout : out = pair_octets h1 h2 l1 l2 ++ out') by congruence.
        rewrite Hout, list_ascii_of_string_app.
        intros Hin. apply in_app_or in Hin as [Hin|Hin].
        -- eapply pair_octets_chars; eassumption.
        -- apply (IH s6 out' c); [simpl in Hlen; lia | exact Hrest | exact Hin].
      * destruct (encodeURIComponent s1) as [out'|] eqn:Hrest; [|discriminate].
        cbn [option_map]. intros Heq.
        assert (Hout : out = percent (nat_of_ascii c1) ++ out') by congruence.
        rewrite Hout, list_ascii_of_string_app.
        intros Hin. apply in_app_or in Hin as [Hin|Hin].
        -- eapply percent_chars; eassumption.
        -- apply (IH s1 out' c); [lia | exact Hrest | exact Hin].
Qed.

(** What [encodeURIComponent] returns is made of unreserved characters
    and percent signs. *)
Lemma encodeURIComponent_chars s out c :
  encodeURIComponent s = Some out ->
  In c (list_ascii_of_string out) ->
  uri_unreserved c = true \/ c = "%"%char.
Proof. apply (encodeURIComponent_chars_bounded (String.length s)). lia. Qed.

(** [encodeURIComponent] throws only at a surrogate. *)
Lemma encodeURIComponent_throws s :
  encodeURIComponent s = None ->
  exists a c rest, s = a ++ String c rest /\ starts_surrogate c rest = true.
Proof.
  induction s as [|c1 s1 IH]; [discriminate|].
  rewrite encodeURIComponent_cons.
  destruct (uri_unreserved c1);
    [|destruct (starts_surrogate c1 s1) eqn:Hsur;
      [intros _; exists "", c1, s1; auto|]];
    (destruct (encodeURIComponent s1) as [out|]; [discriminate|];
     intros _; destruct (IH eq_refl) as (a & c & rest & -> & Hs);
     exists (String c1 a), c, rest; auto).
Qed.

(** It does throw at a surrogate that ends the string or that is followed
    by something else than a surrogate, when all that precedes is
    unreserved. *)
Lemma encodeURIComponent_lone a c1 c2 c3 rest :
  (forall c, In c (list_ascii_of_string a) -> uri_unreserved c = true) ->
  starts_surrogate c1 (String c2 (String c3 "")) = true ->
  (forall c4 l1 rest', rest = String c4 (String l1 rest') ->
                       low_surrogate c4 l1 = false) ->
  encodeURIComponent (a ++ String c1 (String c2 (String c3 rest))) = None.
Proof.
  intros Ha Hsur Hnext. induction a as [|x a IH].
  - cbn [append]. rewrite encodeURIComponent_cons.
    assert (Hc1 : uri_unreserved c1 = false).
    { cbn [starts_surrogate] in Hsur.
      assert (H237 : nat_of_ascii c1 = 237%nat).
      { apply orb_prop in Hsur as [H|H];
          apply andb_prop in H as [H _]; apply andb_prop in H as [H _];
          now apply Nat.eqb_eq in H. }
      rewrite <- (ascii_nat_embedding c1), H237. reflexivity. }
    rewrite Hc1. cbn [starts_surrogate] in *. rewrite Hsur.
    destruct rest as [|c4 [|l1 [|l2 rest']]]; try reflexivity.
    rewrite (Hnext c4 l1 (String l2 rest') eq_refl).
    now rewrite andb_false_r.
  - cbn [append]. rewrite encodeURIComponent_cons.
    rewrite (Ha x) by (simpl; auto).
    rewrite IH; [reflexivity|].
    intros c Hc. apply Ha. simpl. auto.
Qed.

(** X11. The account and email-verification methods pass the address
    through [encodeURIComponent]. Whatever the address, one of three things
    happens. It has no string form, and each method throws the [TypeError]
    of the conversion. [encodeURIComponent] refuses its string form, which
    then holds a surrogate, and each method throws the [URIError]. Or the
    segment that the methods put into the path consists of unreserved
    characters and percent escapes only, so that it holds no slash,
    question mark, hash, ampersand or space. *)
Theorem account_segment_is_escaped email :
  let path (p : Prepared) :=
    match p with
    | Calls c => Some (call_endpoint c)
    | Throws _ => None
    end in
  let all_throw (e : Js.error) :=
    getAccount email = Throws e /\
    (forall body, updateAccount email body = Throws e) /\
    deleteAccount email = Throws e /\
    pauseAccount email = Throws e /\
    resumeAccount email = Throws e /\
    markAccountFixed email = Throws e /\
    getEmailVerification email = Throws e in
  match Js.to_string email with
  | None => all_throw (Js.TypeError "Cannot convert object to primitive value")
  | Some s =>
      match encodeURIComponent s with
      | None =>
          all_throw (Js.URIError "URI malformed") /\
          exists a c rest,
            s = a ++ String c rest /\ starts_surrogate c rest = true
      | Some seg =>
          path (getAccount email) = Some ("/accounts/" ++ seg) /\
          (forall body,
             path (updateAccount email body) = Some ("/accounts/" ++ seg)) /\
          path (deleteAccount email) = Some ("/accounts/" ++ seg) /\
          path (pauseAccount email) = Some ("/accounts/" ++ seg ++ "/pause") /\
          path (resumeAccount email) =
            Some ("/accounts/" ++ seg ++ "/resume") /\
          path (markAccountFixed email) =
            Some ("/accounts/" ++ seg ++ "/mark-fixed") /\
          path (getEmailVerification email) =
            Some ("/email-verification/" ++ seg) /\
          forall c, In c (list_ascii_of_string seg) ->
                    (uri_unreserved c = true \/ c = "%"%char) /\
                    ~ In c ["/"; "?"; "#"; "&"; "="; "+"; " "; ":"; "@"]%char
      end
  end.
Proof.
  cbv zeta. unfold_methods.
  destruct (Js.to_string email) as [s|]; [|repeat split].
  destruct (encodeURIComponent s) as [seg|] eqn:Henc.
  - repeat (split; [reflexivity|]).
    intros c Hin. apply (encodeURIComponent_chars _ _ _ Henc) in Hin.
    split; [exact Hin|].
    intros Hbad. simpl in Hbad.
    destruct Hin as [Hun| ->].
    + repeat (destruct Hbad as [<-|Hbad]; [discriminate Hun|]). exact Hbad.
    + repeat (destruct Hbad as [Hbad|Hbad]; [discriminate Hbad|]).
      exact Hbad.
  - split; [repeat split|]. now apply encodeURIComponent_throws.
Qed.

Lemma lookup_omit_same key fields :
  Js.lookup key (omit key fields) = Js.Undefined.
Proof.
  induction fields as [|[k v] fields IH]; simpl; [reflexivity|].
  destruct (String.eqb_spec key k) as [->|Hne]; simpl; [exact IH|].
  destruct (String.eqb_spec key k); [contradiction | exact IH].
Qed.

Lemma lookup_omit_other key k fields :
  k <> key -> Js.lookup k (omit key fields) = Js.lookup k fields.
Proof.
  intros Hne. induction fields as [|[k' v] fields IH]; simpl; [reflexivity|].
  destruct (String.eqb_spec key k') as [<-|Hk]; simpl.
  - destruct (String.eqb_spec k key); [contradiction | exact IH].
  - now rewrite IH.
Qed.

(** X13. The five update tools send a PATCH whose body is the arguments
    without the identifier: the key that names the resource ([email] for
    accounts, [id] otherwise) is absent from the body, and every other
    argument is in it with its value. The request is not made only when
    the identifier has no string form or, for [update_account], when
    [encodeURIComponent] refuses it. *)
Theorem update_tools_strip_identifier tool key params :
  In (tool, key) [("update_account", "email"); ("update_campaign", "id");
                  ("update_email", "id"); ("update_lead", "id");
                  ("update_lead_list", "id")] ->
  exists body,
    find_case tool tool_cases = Some body /\
    match body params with
    | Calls c =>
        call_method c = "PATCH" /\
        call_data c = Js.Object (omit key params)
    | Throws e =>
        Js.to_string (Js.lookup key params) = None \/
        tool = "update_account" /\
        exists s, Js.to_string (Js.lookup key params) = Some s /\
                  encodeURIComponent s = None
    end /\
    Js.lookup key (omit key params) = Js.Undefined /\
    forall k, k <> key ->
              Js.lookup k (omit key params) = Js.lookup k params.
Proof.
  intros Hin. simpl in Hin.
  assert (Hrest : Js.lookup key (omit key params) = Js.Undefined /\
                  forall k, k <> key ->
                            Js.lookup k (omit key params) = Js.lookup k params)
    by (split; [apply lookup_omit_same | intros k; apply lookup_omit_other]).
  repeat (destruct Hin as [[= <- <-]|Hin];
          [eexists; split; [reflexivity|]; split; [|exact Hrest];
           unfold_methods;
           match goal with
           | |- context [Js.to_string ?v] =>
               destruct (Js.to_string v) as [s|]
           end;
           [ try (destruct (encodeURIComponent s) eqn:Henc);
             first [ split; reflexivity | right; eauto ]
           | now left ]|]).
  destruct Hin.
Qed.

(** X14. The handler does not check that the identifier of a resource is
    among the arguments: when it is missing, the text ["undefined"] takes
    its place in the path, and that is the endpoint the call requests. *)
Theorem missing_identifier_is_requested tool key path params :
  In (tool, key, path)
     [("get_account", "email", "/accounts/undefined");
      ("update_account", "email", "/accounts/undefined");
      ("delete_account", "email", "/accounts/undefined");
      ("pause_account", "email", "/accounts/undefined/pause");
      ("resume_account", "email", "/accounts/undefined/resume");
      ("mark_account_fixed", "email", "/accounts/undefined/mark-fixed");
      ("get_email_verification", "email", "/email-verification/undefined");
      ("activate_campaign", "id", "/campaigns/undefined/activate");
      ("pause_campaign", "id", "/campaigns/undefined/pause");
      ("get_campaign", "id", "/campaigns/undefined");
      ("update_campaign", "id", "/campaigns/undefined");
      ("delete_campaign", "id", "/campaigns/undefined");
      ("share_campaign", "id", "/campaigns/undefined/share");
      ("get_email", "id", "/emails/undefined");
      ("update_email", "id", "/emails/undefined");
      ("delete_email", "id", "/emails/undefined");
      ("mark_thread_as_read", "thread_id",
       "/emails/threads/undefined/mark-as-read");
      ("get_lead", "id", "/leads/undefined");
      ("update_lead", "id", "/leads/undefined");
      ("delete_lead", "id", "/leads/undefined");
      ("get_lead_list", "id", "/lead-lists/undefined");
      ("update_lead_list", "id", "/lead-lists/undefined");
      ("delete_lead_list", "id", "/lead-lists/undefined")] ->
  Js.lookup key params = Js.Undefined ->
  exists body c,
    find_case tool tool_cases = Some body /\
    body params = Calls c /\
    call_endpoint c = path.
Proof.
  intros Hin Hmissing. simpl in Hin.
  repeat (destruct Hin as [[= <- <- <-]|Hin];
          [eexists; eexists; split; [reflexivity|];
           unfold_methods; rewrite Hmissing;
           split; reflexivity|]).
  destruct Hin.
Qed.

(** ** Settings with a fraction *)

Lemma is_white_space2_dot c : Js.is_white_space2 c "." = false.
Proof. unfold Js.is_white_space2. apply andb_false_r. Qed.

Lemma is_white_space3_dot c1 c2 c3 :
  c2 = "."%char \/ c3 = "."%char -> Js.is_white_space3 c1 c2 c3 = false.
Proof.
  unfold Js.is_white_space3.
  intros [-> | ->];
    generalize (nat_of_ascii c1); intros n1;
    [generalize (nat_of_ascii c3) | generalize (nat_of_ascii c2)]; intros m;
    repeat match goal with
           | |- context [Nat.eqb ?a ?b] =>
               is_var a; destruct (Nat.eqb a b); cbn [andb orb]
           end; try reflexivity;
    repeat match goal with
           | |- context [Nat.leb ?a ?b] =>
               first [is_var a | is_var b]; destruct (Nat.leb a b);
               cbn [andb orb]
           end; reflexivity.
Qed.

Lemma trim_start_dot_bounded n :
  forall a f,
    (String.length a <= n)%nat ->
    Js.trim_start (a ++ String "." f) = Js.trim_start a ++ String "." f.
Proof.
  induction n as [|n IH]; intros a f Hlen.
  - destruct a; [|simpl in Hlen; lia].
    destruct f as [|c2 [|c3 f]]; reflexivity.
  - destruct a as [|c1 a]; [destruct f as [|c2 [|c3 f]]; reflexivity|].
    simpl in Hlen.
    cbn [append Js.trim_start].
    destruct (Js.is_white_space c1); [apply IH; lia|].
    destruct a as [|c2 a]; cbn [append].
    { rewrite is_white_space2_dot.
      destruct f as [|c3 f]; [reflexivity|].
      now rewrite is_white_space3_dot by auto. }
    simpl in Hlen.
    destruct (Js.is_white_space2 c1 c2); [apply IH; lia|].
    destruct a as [|c3 a]; cbn [append].
    { now rewrite is_white_space3_dot by auto. }
    simpl in Hlen.
    destruct (Js.is_white_space3 c1 c2 c3); [apply IH; lia | reflexivity].
Qed.

Lemma trim_start_dot a f :
  Js.trim_start (a ++ String "." f) = Js.trim_start a ++ String "." f.
Proof. apply (trim_start_dot_bounded (String.length a)). lia. Qed.

Lemma strip_sign_dot a f :
  Js.strip_sign (a ++ String "." f) =
  (fst (Js.strip_sign a), snd (Js.strip_sign a) ++ String "." f).
Proof.
  destruct a as [|c a]; [reflexivity|].
  destruct c as [[] [] [] [] [] [] [] []]; reflexivity.
Qed.

Lemma strip_hex_prefix_dot a f :
  Js.strip_hex_prefix (a ++ String "." f) =
  (fst (Js.strip_hex_prefix a), snd (Js.strip_hex_prefix a) ++ String "." f).
Proof.
  destruct a as [|c a]; [reflexivity|].
  destruct c as [[] [] [] [] [] [] [] []]; try reflexivity.
  destruct a as [|d a]; [reflexivity|].
  destruct d as [[] [] [] [] [] [] [] []]; reflexivity.
Qed.

Lemma parse_digits_dot radix s f :
  forall acc,
    Js.parse_digits radix acc (s ++ String "." f) = Js.parse_digits radix acc s.
Proof.
  induction s as [|c s IH]; intros acc; simpl; [reflexivity|].
  destruct (Js.digit_value radix c); [apply IH | reflexivity].
Qed.

(** [parseInt] stops at a decimal point. *)
Lemma parseInt_ignores_fraction ds frac :
  Js.parseInt (ds ++ String "." frac) = Js.parseInt ds.
Proof.
  unfold Js.parseInt. rewrite trim_start_dot, strip_sign_dot.
  destruct (Js.strip_sign (Js.trim_start ds)) as [sign s1]. cbn [fst snd].
  rewrite strip_hex_prefix_dot.
  destruct (Js.strip_hex_prefix s1) as [radix s2]. cbn [fst snd].
  now rewrite parse_digits_dot.
Qed.

Lemma env_or_set_same env name value fallback :
  env_or (env_set env name value) name fallback =
  if String.eqb value "" then fallback else value.
Proof. unfold env_or, env_set. now rewrite String.eqb_refl. Qed.

Lemma env_or_set_other env name value other fallback :
  other <> name ->
  env_or (env_set env name value) other fallback = env_or env other fallback.
Proof.
  intros Hne. unfold env_or, env_set.
  destruct (String.eqb_spec other name); [contradiction | reflexivity].
Qed.

Ltac env_or_set :=
  repeat match goal with
         | |- context [env_or (env_set ?e ?n ?v) ?n ?fb] =>
             rewrite (env_or_set_same e n v fb)
         | |- context [env_or (env_set ?e ?n ?v) ?o ?fb] =>
             rewrite (env_or_set_other e n v o fb) by discriminate
         end.

(** X15. The four retry settings are read with [parseInt], which stops at
    a decimal point: with a variable set to [<ds>.<frac>], where [<ds>] is
    not empty, the policy is the one that the value [<ds>] gives, the
    setting being [parseInt(<ds>)]; a backoff factor of 1.5 is the factor
    1. A value that starts with the point gives the setting [NaN]. *)
Theorem fractional_settings_truncated env name setting ds frac :
  In (name, setting)
     [("INSTANTLY_RETRY_MAX_ATTEMPTS", maxAttempts);
      ("INSTANTLY_RETRY_INITIAL_DELAY", initialDelay);
      ("INSTANTLY_RETRY_MAX_DELAY", maxDelay);
      ("INSTANTLY_RETRY_BACKOFF_FACTOR", backoffFactor)] ->
  (ds <> "" ->
   retryConfig_of (env_set env name (ds ++ "." ++ frac)) =
     retryConfig_of (env_set env name ds) /\
   setting (retryConfig_of (env_set env name (ds ++ "." ++ frac))) =
     Js.parseInt ds) /\
  setting (retryConfig_of (env_set env name ("." ++ frac))) = Js.NaN.
Proof.
  intros Hin. simpl in Hin.
  assert (Hv : String.eqb (ds ++ "." ++ frac) "" = false)
    by now destruct ds.
  assert (Hparse : Js.parseInt (ds ++ "." ++ frac) = Js.parseInt ds)
    by apply parseInt_ignores_fraction.
  assert (Hdot : Js.parseInt ("." ++ frac) = Js.NaN).
  { change ("." ++ frac) with ("" ++ String "." frac).
    now rewrite parseInt_ignores_fraction. }
  assert (Hdotv : String.eqb ("." ++ frac) "" = false) by reflexivity.
  split.
  - intros Hds.
    assert (Hd : String.eqb ds "" = false)
      by (destruct ds; [contradiction | reflexivity]).
    unfold retryConfig_of.
    destruct Hin as [[= <- <-]|[[= <- <-]|[[= <- <-]|[[= <- <-]|[]]]]];
      env_or_set; rewrite Hv, Hd, Hparse; split; reflexivity.
  - unfold retryConfig_of.
    destruct Hin as [[= <- <-]|[[= <- <-]|[[= <- <-]|[[= <- <-]|[]]]]];
      env_or_set; rewrite Hdotv;
      cbn [maxAttempts initialDelay maxDelay backoffFactor]; exact Hdot.
Qed.

(** X17. The server runs only with a key: [getApiKey] ends the process
    with code 1 when [INSTANTLY_API_KEY] is absent or empty, and otherwise
    returns its value, which is not empty and which every HTTP attempt of
    every tool call then carries as the bearer credential, next to the JSON
    content type. *)
Theorem bearer_is_the_configured_key env transport name args :
  (forall logged code,
     getApiKey env = ProcessExit logged code ->
     code = 1 /\
     (env "INSTANTLY_API_KEY" = None \/ env "INSTANTLY_API_KEY" = Some "")) /\
  (forall key,
     getApiKey env = KeyFound key ->
     env "INSTANTLY_API_KEY" = Some key /\
     key <> "" /\
     exists reply tr,
       call_tool env transport key name args = Some (reply, tr) /\
       forall r, In (EvHttp r) tr ->
         req_headers r = [("Content-Type", "application/json");
                          ("Authorization", "Bearer " ++ key)]).
Proof.
  unfold getApiKey. split.
  - intros logged code.
    destruct (env "INSTANTLY_API_KEY") as [v|]; [|intros [= _ <-]; auto].
    destruct (String.eqb_spec v "") as [->|_]; [|discriminate].
    intros [= _ <-]. auto.
  - intros key.
    destruct (env "INSTANTLY_API_KEY") as [v|]; [|discriminate].
    destruct (String.eqb_spec v "") as [->|Hne]; [discriminate|].
    intros [= ->]. split; [reflexivity|]. split; [exact Hne|].
    unfold call_tool, perform.
    destruct args as [params|]; [|exists (ReplyError "No arguments provided"), [];
                                  split; [reflexivity | intros r []]].
    destruct (find_case name tool_cases) as [body|];
      [|eexists; exists []; split; [reflexivity | intros r []]].
    destruct (body params) as [c|e];
      [|eexists; exists []; split; [reflexivity | intros r []]].
    destruct (request_ends (retryConfig_of env) transport
                (new_InstantlyClient env key)
                (call_endpoint c) (call_method c) (call_data c))
      as (result & tr & -> & Hrun).
    assert (Hhttp : forall r, In (EvHttp r) tr ->
              req_headers r = [("Content-Type", "application/json");
                               ("Authorization", "Bearer " ++ key)]).
    { intros r Hr.
      now rewrite (runs_http_requests _ _ _ _ _ _ _ _ _ _ Hrun r Hr). }
    destruct result; eauto.
Qed.

(** ** The properties at sample inputs *)

(** [parseInt] and [encodeURIComponent] on strings beyond ASCII: a
    no-break space before the digits is skipped; U+00E9 is two octets and
    U+1F600 four, also when it is written as its two surrogates U+D83D and
    U+DE00; a surrogate without partner is refused, a high one as well as
    a low one. *)
Example beyond_ascii :
  Js.parseInt (bytes [194; 160] ++ "42") = Js.Num 42 /\
  encodeURIComponent (bytes [195; 169] ++ "@x.io") = Some "%C3%A9%40x.io" /\
  encodeURIComponent (bytes [240; 159; 152; 128]) = Some "%F0%9F%98%80" /\
  encodeURIComponent (bytes [237; 160; 189; 237; 184; 128])
    = Some "%F0%9F%98%80" /\
  encodeURIComponent ("a" ++ lone_surrogate ++ "b") = None /\
  encodeURIComponent (bytes [237; 184; 128; 237; 160; 189]) = None.
Proof. repeat split. Qed.

(** [INSTANTLY_RETRY_MAX_ATTEMPTS=three] *)
Lemma unusable_max_attempts_disables_tools_witness :
  call_tool (env_with "INSTANTLY_RETRY_MAX_ATTEMPTS" "three")
            (scripted [] (ok Js.Null)) "key-1" "list_campaigns" (Some [])
  = Some (ReplyError "Cannot read properties of undefined (reading 'response')",
          []).
Proof.
  destruct (unusable_max_attempts_disables_tools
              (env_with "INSTANTLY_RETRY_MAX_ATTEMPTS" "three")
              (scripted [] (ok Js.Null)) "key-1" "list_campaigns" [])
    as (body & Hbody & Hcall); [reflexivity | simpl; tauto |].
  cbv [find_case tool_cases String.eqb Ascii.eqb Bool.eqb andb] in Hbody.
  injection Hbody as <-. exact Hcall.
Defined.

(** No variable set, the server answering 503 every time. *)
Lemma default_policy_bounds_tool_calls_witness :
  exists reply tr,
    call_tool no_env (scripted [] (answered 503 [] Js.Null)) "key-1"
              "count_unread_emails" (Some []) = Some (reply, tr) /\
    (1 <= http_count tr <= 3)%nat.
Proof.
  destruct (default_policy_bounds_tool_calls no_env
              (scripted [] (answered 503 [] Js.Null)) "key-1"
              "count_unread_emails" [])
    as (_ & body & reply & tr & Hbody & Hcall & Hcount).
  - intros v _. now left.
  - simpl. tauto.
  - cbv [find_case tool_cases String.eqb Ascii.eqb Bool.eqb andb] in Hbody.
    injection Hbody as <-. eauto.
Defined.

(** An unlisted name; an address and an identifier that the client method
    refuses; and [get_lead] answered at once. *)
Lemma call_tool_rejections_witness :
  call_tool no_env (scripted [] (ok Js.Null)) "key-1" "get_leads" (Some [])
  = Some (ReplyError "Unknown tool: get_leads", []) /\
  call_tool no_env (scripted [] (ok Js.Null)) "key-1" "get_account"
            (Some [("email", Js.Str lone_surrogate)])
  = Some (ReplyError "URI malformed", []) /\
  call_tool no_env (scripted [] (ok Js.Null)) "key-1" "get_lead"
            (Some [("id", Js.Object [("toString", Js.Number (Js.Num 1))])])
  = Some (ReplyError "Cannot convert object to primitive value", []) /\
  exists reply tr,
    call_tool no_env (scripted [] (ok Js.Null)) "key-1" "get_lead"
              (Some [("id", Js.Str "7")]) = Some (reply, tr) /\
    (1 <= http_count tr)%nat.
Proof.
  split; [|split; [|split]].
  - apply (call_tool_rejections no_env (scripted [] (ok Js.Null)) "key-1"
             "get_leads").
    simpl. intuition discriminate.
  - apply (call_tool_rejections no_env (scripted [] (ok Js.Null)) "key-1"
             "get_account")
      with (body := fun params => getAccount (Js.lookup "email" params))
           (e := Js.URIError "URI malformed"); reflexivity.
  - apply (call_tool_rejections no_env (scripted [] (ok Js.Null)) "key-1"
             "get_lead")
      with (body := fun params => getLead (Js.lookup "id" params))
           (e := Js.TypeError "Cannot convert object to primitive value");
      reflexivity.
  - apply (call_tool_rejections no_env (scripted [] (ok Js.Null)) "key-1"
             "get_lead")
      with (body := fun params => getLead (Js.lookup "id" params))
           (c := {| call_endpoint := "/leads/7";
                    call_method := "GET";
                    call_data := Js.Undefined |})
           (m := 3); [reflexivity | reflexivity | reflexivity | lia].
Defined.

(** [pause_account] against a server that answers 401. *)
Lemma call_tool_is_one_request_witness :
  exists tr,
    call_tool no_env (scripted [] (answered 401 [] Js.Null)) "key-1"
              "pause_account" (Some [("email", Js.Str "a b@x.io")])
    = Some (ReplyError "Invalid API key", tr) /\
    forall r, In (EvHttp r) tr ->
      req_url r = "https://api.instantly.ai/api/v2/accounts/a%20b%40x.io/pause".
Proof.
  destruct (call_tool_is_one_request no_env
              (scripted [] (answered 401 [] Js.Null)) "key-1"
              "pause_account" [("email", Js.Str "a b@x.io")])
    as (body & Hbody & Hcall); [simpl; tauto|].
  cbv [find_case tool_cases String.eqb Ascii.eqb Bool.eqb andb] in Hbody.
  injection Hbody as <-.
  destruct Hcall as (result & reply & tr & Hreq & Hcall & Hreply & Hhttp & _).
  vm_compute in Hreq. injection Hreq as <- <-.
  eexists. split; [rewrite Hcall, Hreply; reflexivity|].
  intros r Hr. destruct (Hhttp r Hr) as [Hurl _]. exact Hurl.
Defined.

Lemma tool_calls_well_formed_witness :
  String.prefix "/" "/leads/../campaigns" = true /\
  In "GET" ["GET"; "POST"; "PATCH"; "DELETE"].
Proof.
  apply (tool_calls_well_formed "get_lead"
           (fun params => getLead (Js.lookup "id" params))
           [("id", Js.Str "../campaigns")]
           {| call_endpoint := "/leads/../campaigns";
              call_method := "GET";
              call_data := Js.Undefined |}); reflexivity.
Defined.

(** An address with a space and an at sign, and one with a surrogate
    without partner. *)
Lemma account_segment_is_escaped_witness :
  match pauseAccount (Js.Str "a b@x.io") with
  | Calls c => Some (call_endpoint c)
  | Throws _ => None
  end = Some "/accounts/a%20b%40x.io/pause" /\
  getEmailVerification (Js.Str lone_surrogate) =
    Throws (Js.URIError "URI malformed").
Proof.
  split.
  - pose proof (account_segment_is_escaped (Js.Str "a b@x.io")) as H.
    cbv zeta in H. cbn [Js.to_string] in H.
    change (encodeURIComponent "a b@x.io") with (Some "a%20b%40x.io") in H.
    destruct H as (_ & _ & _ & Hpause & _). exact Hpause.
  - pose proof (account_segment_is_escaped (Js.Str lone_surrogate)) as H.
    cbv zeta in H. cbn [Js.to_string] in H.
    change (encodeURIComponent lone_surrogate) with (@None string) in H.
    destruct H as ((_ & _ & _ & _ & _ & _ & Hthrows) & _).
    exact Hthrows.
Defined.

Lemma update_tools_strip_identifier_witness :
  exists body c,
    find_case "update_lead" tool_cases = Some body /\
    body [("id", Js.Str "7"); ("first_name", Js.Str "Ada")] = Calls c /\
    call_endpoint c = "/leads/7" /\
    call_method c = "PATCH" /\
    call_data c = Js.Object [("first_name", Js.Str "Ada")].
Proof.
  destruct (update_tools_strip_identifier "update_lead" "id"
              [("id", Js.Str "7"); ("first_name", Js.Str "Ada")])
    as (body & Hbody & Hcall & _); [simpl; tauto|].
  cbv [find_case tool_cases String.eqb Ascii.eqb Bool.eqb andb] in Hbody.
  injection Hbody as <-.
  eexists. eexists. split; [reflexivity|]. split; [reflexivity|].
  split; [reflexivity|]. exact Hcall.
Defined.

Lemma missing_identifier_is_requested_witness :
  exists body c,
    find_case "delete_campaign" tool_cases = Some body /\
    body [("name", Js.Str "spring")] = Calls c /\
    call_endpoint c = "/campaigns/undefined".
Proof.
  apply (missing_identifier_is_requested "delete_campaign" "id"
           "/campaigns/undefined" [("name", Js.Str "spring")]);
    [simpl; tauto | reflexivity].
Defined.

(** [INSTANTLY_RETRY_BACKOFF_FACTOR=1.5], and [=.5] *)
Lemma fractional_settings_truncated_witness :
  backoffFactor
    (retryConfig_of (env_with "INSTANTLY_RETRY_BACKOFF_FACTOR" "1.5"))
  = Js.Num 1 /\
  backoffFactor
    (retryConfig_of (env_with "INSTANTLY_RETRY_BACKOFF_FACTOR" ".5"))
  = Js.NaN.
Proof.
  destruct (fractional_settings_truncated no_env
              "INSTANTLY_RETRY_BACKOFF_FACTOR" backoffFactor "1" "5")
    as [Hfrac Hdot]; [simpl; tauto|].
  split.
  - destruct Hfrac as [_ H]; [discriminate|]. exact H.
  - exact Hdot.
Defined.

(** [INSTANTLY_API_KEY=key-1], [list_leads] answered at once. *)
Lemma bearer_is_the_configured_key_witness :
  exists reply tr,
    call_tool (env_with "INSTANTLY_API_KEY" "key-1") (scripted [] (ok Js.Null))
              "key-1" "list_leads" (Some []) = Some (reply, tr) /\
    forall r, In (EvHttp r) tr ->
      req_headers r = [("Content-Type", "application/json");
                       ("Authorization", "Bearer key-1")].
Proof.
  destruct (bearer_is_the_configured_key
              (env_with "INSTANTLY_API_KEY" "key-1") (scripted [] (ok Js.Null))
              "list_leads" (Some [])) as [_ Hfound].
  destruct (Hfound "key-1" eq_refl) as (_ & _ & Hcall).
  exact Hcall.
Defined.
